(** * Kernel profiler and benchmark harness of tfjs

    A shallow embedding of
    - [tfjs-core/src/profiler.ts]: [Profiler.profileKernel],
      [ProfilerException], [checkComputationForErrors] and
      [Logger.logKernelProfile];
    - the benchmark helper [time] of the WebGPU "Ops benchmarks" suite
      (second document of [tfjs-react-native/integration_rn59/App.tsx]),
      the [argMax] benchmark that calls it, and the component [App] of
      the first document.

    The helper is embedded three times: as [time], for callbacks that
    return and promises that are fulfilled; as [timeE], for callbacks
    that may throw; and as [timeA], where in addition the promises
    awaited may be rejected or never settled and the disposal of a
    tensor changes the state that the callbacks see. [timeA_settled] and
    [timeE_returning] relate the three.

    JavaScript numbers are IEEE-754 binary64 values ([spec_float] with
    precision 53 and exponent bound 1024); promises are modelled by an
    explicit scheduler whose actions are the resolutions the host may
    perform, in any order. *)

From Stdlib Require Import ZArith List String Ascii Bool Lia PeanoNat.
From Stdlib Require Import DecimalString Eqdep_dec.
From Stdlib Require Import Floats.SpecFloat.
Import ListNotations.

Local Open Scope string_scope.
Local Open Scope list_scope.

(* ================================================================= *)
(** ** JavaScript values used by the two files *)

(** A JavaScript [number]. *)
Definition number : Type := spec_float.

Definition prec : Z := 53.
Definition emax : Z := 1024.

(** The global [isNaN] on a number. *)
Definition isNaN (x : number) : bool :=
  match x with
  | S754_nan => true
  | _ => false
  end.

(** The global [isFinite] on a number. *)
Definition isFinite (x : number) : bool :=
  match x with
  | S754_nan | S754_infinity _ => false
  | _ => true
  end.

(** [a + b], [a - b], [a / b] and [a < b] on numbers. *)
Definition num_add (a b : number) : number := SFadd prec emax a b.
Definition num_sub (a b : number) : number := SFsub prec emax a b.
Definition num_div (a b : number) : number := SFdiv prec emax a b.
Definition num_lt (a b : number) : bool := SFltb a b.

(** The number denoted by an integer literal or held by an integer-valued
    variable such as [trials] and [reps]. *)
Definition num_of_Z (z : Z) : number := binary_normalize prec emax z 0 false.
Definition num_of_nat (n : nat) : number := num_of_Z (Z.of_nat n).

Definition pos_zero : number := S754_zero false.
Definition pos_infinity : number := S754_infinity false.

Definition is_neg_zero (x : number) : bool :=
  match x with
  | S754_zero true => true
  | _ => false
  end.

Definition is_pos_zero (x : number) : bool :=
  match x with
  | S754_zero false => true
  | _ => false
  end.

(** [Math.min(...xs)] with [lowest] the running minimum: a NaN argument
    makes the result NaN, [-0] is smaller than [+0], otherwise [<]
    decides. *)
Fixpoint Math_min_from (lowest : number) (xs : list number) : number :=
  match xs with
  | [] => lowest
  | x :: rest =>
      if isNaN x then S754_nan
      else if is_neg_zero x && is_pos_zero lowest then Math_min_from x rest
      else if num_lt x lowest then Math_min_from x rest
      else Math_min_from lowest rest
  end.

Definition Math_min (xs : list number) : number :=
  Math_min_from pos_infinity xs.

(** [xs.reduce((a, b) => a + b, 0)]. *)
Definition reduce_sum (xs : list number) : number :=
  fold_left num_add xs pos_zero.

(** Decimal rendering of an integer, as [String(n)] gives for an
    integer-valued number. *)
Definition Z_toString (z : Z) : string :=
  NilZero.string_of_int (Z.to_int z).

(** [xs.toString()] on an array of integers: the elements joined by
    commas. *)
Fixpoint Array_toString (xs : list Z) : string :=
  match xs with
  | [] => ""
  | [x] => Z_toString x
  | x :: rest => Z_toString x ++ "," ++ Array_toString rest
  end.

Definition tab : string := String (ascii_of_nat 9) EmptyString.

(** [' '.repeat(n)]. *)
Fixpoint spaces (n : nat) : string :=
  match n with
  | O => ""
  | S k => String " " (spaces k)
  end.

(** ['0'.repeat(n)]. *)
Fixpoint zeros (n : nat) : string :=
  match n with
  | O => ""
  | S k => String "0" (zeros k)
  end.

(** What a [throw] of these files can carry: [undefined] (the value of a
    call to [ProfilerException]), the engine's TypeError for a property
    access on [undefined], or an [Error] with its message, which a
    callback or the library may throw. *)
Variant Exception : Type :=
  | exn_undefined
  | exn_TypeError
  | exn_Error (message : string).

(** Completion of a call: normal return or a thrown value. *)
Inductive completion (A : Type) : Type :=
  | Return (a : A)
  | Throw (e : Exception).

Arguments Return {A} a.
Arguments Throw {A} e.

(* ================================================================= *)
(** ** Types imported by profiler.ts *)

(** Modelled from the spec: the element type tags of [types.ts]
    ([DataType]), which is not among the sources; the spec speaks of
    32-bit floating point and of "other numeric/integer/boolean types". *)
Variant DataType : Type :=
  | float32
  | int32
  | bool_
  | complex64
  | string_.

(** Modelled from the spec: [DataTypeMap] of [types.ts], the array type
    that materialized values of each element type have. *)
Definition DataTypeMap (d : DataType) : Type :=
  match d with
  | float32 => list number
  | int32 => list Z
  | bool_ => list Z
  | complex64 => list number
  | string_ => list string
  end.

(** Modelled from the spec: the part of [Tensor] ([tensor.ts], not among
    the sources) that the two files read: shape, rank, element count,
    element type tag, and the values that [data()] resolves to. [tid]
    tells tensors apart. *)
Record Tensor : Type := mkTensor {
  tid : nat;
  dtype : DataType;
  shape : list Z;
  rank : Z;
  size : Z;
  values : DataTypeMap dtype
}.

(** [NamedTensorMap]: an object from input names to tensors, held as the
    sequence of its entries in [for ... in] order. *)
Definition NamedTensorMap : Type := list (string * Tensor).

(** [T extends Tensor|Tensor[]]: what a kernel thunk or a benchmark
    repetition returns. *)
Variant Outputs : Type :=
  | One (t : Tensor)
  | Many (ts : list Tensor).

(** [Array.isArray(result) ? result : [result]]. *)
Definition asArray (r : Outputs) : list Tensor :=
  match r with
  | One t => [t]
  | Many ts => ts
  end.

(** [BackendTimingInfo]: [kernelMs] and the optional
    [getExtraProfileInfo]. *)
Record BackendTimingInfo : Type := mkTiming {
  kernelMs : number;
  getExtraProfileInfo : option string
}.

(* ================================================================= *)
(** ** util.rightPad *)

(** Modelled from the spec: [util.rightPad] ([util.ts] is not among the
    sources). The spec asks for a field "padded to a fixed minimum
    width": a string at least [size] long is left alone, a shorter one is
    filled with spaces on the right. *)
Definition rightPad (a : string) (size : nat) : string :=
  if (size <=? String.length a)%nat then a
  else a ++ spaces (size - String.length a).

(* ================================================================= *)
(** ** Rendering of numbers *)

Section Rendering.

(** Rendering of a finite non-zero number by the engine's
    [Number::toString], which the embedding leaves open. *)
Variable finiteToString : bool -> positive -> Z -> string.

(** [`${x}`] for a number. *)
Definition Number_toString (x : number) : string :=
  match x with
  | S754_nan => "NaN"
  | S754_infinity false => "Infinity"
  | S754_infinity true => "-Infinity"
  | S754_zero _ => "0"
  | S754_finite s m e => finiteToString s m e
  end.

(** Whether [m * 2^e] is at least [10^21]. *)
Definition atLeast1e21 (m : positive) (e : Z) : bool :=
  match e with
  | Zneg p => (10 ^ 21 * 2 ^ Zpos p <=? Zpos m)%Z
  | _ => (10 ^ 21 <=? Zpos m * 2 ^ e)%Z
  end.

(** The integer [n] for which [n / 1000] is nearest to [m * 2^e], the
    larger one when two are as near. *)
Definition nearestThousandth (m : positive) (e : Z) : Z :=
  match e with
  | Zneg p => ((2 * (Zpos m * 1000) + 2 ^ Zpos p) / (2 * 2 ^ Zpos p))%Z
  | _ => (Zpos m * 2 ^ e * 1000)%Z
  end.

(** The digits of [n >= 0] with a point before the last three, zeros
    added on the left so that a digit stands before the point. *)
Definition pointBeforeLast3 (n : Z) : string :=
  let digits := Z_toString n in
  let k := String.length digits in
  let padded : string :=
    if (k <=? 3)%nat then (zeros (4 - k) ++ digits)%string else digits in
  let k' := String.length padded in
  (substring 0 (k' - 3) padded ++ "." ++ substring (k' - 3) 3 padded)%string.

(** [x.toFixed(3)]. *)
Definition toFixed3 (x : number) : string :=
  match x with
  | S754_nan | S754_infinity _ => Number_toString x
  | S754_zero _ => "0.000"
  | S754_finite s m e =>
      (if s then "-" else "")
      ++ (if atLeast1e21 m e then finiteToString false m e
          else pointBeforeLast3 (nearestThousandth m e))
  end.

End Rendering.

(* ================================================================= *)
(** ** profiler.ts *)

Section Profiler.

Variable finiteToString : bool -> positive -> Z -> string.

(** [ProfilerException(msg)]: writes [msg] to [console.error] and returns
    [undefined]. The result pairs the lines written with the value
    returned. *)
Definition ProfilerException (msg : string) : list string * Exception :=
  ([msg], exn_undefined).

(** The template [`The result of the '${name}' is ${num}.`]. *)
Definition errorMessage (name : string) (num : number) : string :=
  "The result of the '" ++ name ++ "' is " ++ Number_toString finiteToString num ++ ".".

(** The [for] loop of [checkComputationForErrors]: lines written to
    [console.error], and the completion. *)
Fixpoint checkLoop (vals : list number) (name : string)
  : list string * completion unit :=
  match vals with
  | [] => ([], Return tt)
  | num :: rest =>
      if isNaN num || negb (isFinite num) then
        let (lines, v) := ProfilerException (errorMessage name num) in
        (lines, Throw v)
      else checkLoop rest name
  end.

(** [checkComputationForErrors(vals, dtype, name)]; [dtype] comes first
    because the type of [vals] depends on it. *)
Definition checkComputationForErrors (dtype : DataType)
  : DataTypeMap dtype -> string -> list string * completion unit :=
  match dtype with
  | float32 => fun vals name => checkLoop vals name
  | _ => fun _ _ => ([], Return tt)
  end.

(** One segment of [inputShapesDescription]. *)
Definition inputSegment (name : string) (input : Tensor) : string :=
  let inputShape := shape input in
  let inputRank := Z.of_nat (List.length inputShape) in
  name ++ ": " ++ Z_toString inputRank ++ "D "
       ++ (if (0 <? inputRank)%Z then Array_toString inputShape else "")
       ++ " ".

(** The [for (const name in inputs)] loop, [acc] being
    [inputShapesDescription]. *)
Fixpoint describeInputs (acc : string) (inputs : NamedTensorMap) : string :=
  match inputs with
  | [] => acc
  | (name, input) :: rest =>
      describeInputs (acc ++ inputSegment name input) rest
  end.

(** [`${extraInfo}`] for the optional parameter. *)
Definition optional_toString (extraInfo : option string) : string :=
  match extraInfo with
  | Some s => s
  | None => "undefined"
  end.

(** The six style arguments of the [console.log] call. *)
Definition logStyles : list string :=
  ["font-weight:bold"; "color:red"; "color:blue"; "color: orange";
   "color: green"; "color: steelblue"].

(** The first argument of the [console.log] call. *)
Definition logRecord (name : string) (result : Tensor) (timeMs : number)
  (inputs : NamedTensorMap) (extraInfo : option string) : string :=
  let time := rightPad (Number_toString finiteToString timeMs ++ "ms") 9 in
  let paddedName := rightPad name 25 in
  let rank := rank result in
  let size := size result in
  let shape := rightPad (Array_toString (shape result)) 14 in
  let inputShapesDescription := describeInputs "" inputs in
  "%c" ++ paddedName ++ tab ++ "%c" ++ time ++ tab
       ++ "%c" ++ Z_toString rank ++ "D " ++ shape ++ tab
       ++ "%c" ++ Z_toString size ++ tab
       ++ "%c" ++ inputShapesDescription ++ tab
       ++ "%c" ++ optional_toString extraInfo.

(** [Logger.logKernelProfile]: the arguments of its [console.log]
    call. [vals] is accepted and not used. *)
Definition logKernelProfile (name : string) (result : Tensor)
  (vals : DataTypeMap (dtype result)) (timeMs : number)
  (inputs : NamedTensorMap) (extraInfo : option string) : list string :=
  logRecord name result timeMs inputs extraInfo :: logStyles.

End Profiler.

(* ================================================================= *)
(** ** Profiler.profileKernel *)

Section ProfileKernel.

Variable finiteToString : bool -> positive -> Z -> string.

(** State of the program outside the profiler: whatever the kernel thunk
    and the backend read and write. *)
Context {W : Type}.

(** The thunk [f: () => T | Tensor[]]. *)
Definition Thunk : Type := W -> Outputs * W.

(** What one synchronous call [backendTimer.time(work)] does before it
    returns its promise: steps of its own on the outside state, and
    invocations of [work]. *)
Variant TimerStep : Type :=
  | RunWork
  | HostStep (g : W -> W).

(** The [BackendTimer] handed to the constructor. *)
Definition BackendTimer : Type := list TimerStep.

(** [holdResultWrapperFn]: runs [f] and stores what it returned in the
    local variable [result], the first component of the state. *)
Definition holdResultWrapperFn (f : Thunk) (st : option Outputs * W)
  : option Outputs * W :=
  let (r, w') := f (snd st) in (Some r, w').

(** [this.backendTimer.time(holdResultWrapperFn)], synchronous part. *)
Fixpoint runTimer (f : Thunk) (steps : BackendTimer)
  (st : option Outputs * W) : option Outputs * W :=
  match steps with
  | [] => st
  | RunWork :: rest => runTimer f rest (holdResultWrapperFn f st)
  | HostStep g :: rest => runTimer f rest (fst st, g (snd st))
  end.

(** Where the background work of one output stands: [r.data()] not yet
    settled; values checked and [timer.then] registered; record logged;
    or abandoned (the check threw, or [r.data()] rejected). *)
Variant Stage : Type :=
  | AwaitData
  | AwaitTimer
  | Logged
  | Abandoned.

Record Task : Type := mkTask {
  output : Tensor;
  stage : Stage
}.

(** What the background work does, in the order it happens. [i] is the
    index of the output in [results]. *)
Variant Event : Type :=
  | EvMaterialized (i : nat)
  | EvConsoleError (line : string)
  | EvChecked (i : nat) (c : completion unit)
  | EvLogged (i : nat) (args : list string).

(** The dangling promises of one [profileKernel] call: the settled value
    of [timer] if it has one, the per-output work, and what has happened
    so far. *)
Record Background : Type := mkBackground {
  timing : option BackendTimingInfo;
  tasks : list Task;
  trace : list Event
}.

(** [results.forEach(r => { r.data().then(...) })]: one pending task per
    output. *)
Definition spawn (results : list Tensor) : Background :=
  {| timing := None;
     tasks := map (fun r => mkTask r AwaitData) results;
     trace := [] |}.

(** [profileKernel(name, inputs, f)] up to its [return]: the completion,
    the outside state, and the background work left behind. When [result]
    is still [undefined], [results] is [[undefined]] and [r.data()]
    throws. *)
Definition profileKernel (backendTimer : BackendTimer) (name : string)
  (inputs : NamedTensorMap) (f : Thunk) (w : W)
  : completion Outputs * W * Background :=
  let (result, w') := runTimer f backendTimer (None, w) in
  match result with
  | None => (Throw exn_TypeError, w', spawn [])
  | Some r => (Return r, w', spawn (asArray r))
  end.

(** What the host may do next: settle [timer], settle or reject the
    [data()] promise of output [i], or run the [timer.then] callback of
    output [i]. *)
Variant Action : Type :=
  | ResolveTimer (t : BackendTimingInfo)
  | ResolveData (i : nat)
  | RejectData (i : nat)
  | RunTimerCallback (i : nat).

Fixpoint setStage (i : nat) (s : Stage) (ts : list Task) : list Task :=
  match ts, i with
  | [], _ => []
  | t :: rest, O => mkTask (output t) s :: rest
  | t :: rest, S j => t :: setStage j s rest
  end.

(** The callback of [r.data().then]: the check, then [timer.then]. *)
Definition onData (name : string) (i : nat) (r : Tensor) (b : Background)
  : Background :=
  let (lines, c) :=
    checkComputationForErrors finiteToString (dtype r) (values r) name in
  let events :=
    EvMaterialized i :: map EvConsoleError lines ++ [EvChecked i c] in
  match c with
  | Return _ =>
      {| timing := timing b;
         tasks := setStage i AwaitTimer (tasks b);
         trace := trace b ++ events |}
  | Throw _ =>
      {| timing := timing b;
         tasks := setStage i Abandoned (tasks b);
         trace := trace b ++ events |}
  end.

(** The callback of [timer.then], with the default [Logger] that the
    constructor installs when none is given. *)
Definition onTiming (name : string) (inputs : NamedTensorMap) (i : nat)
  (r : Tensor) (t : BackendTimingInfo) (b : Background) : Background :=
  let extraInfo :=
    match getExtraProfileInfo t with
    | Some s => s
    | None => ""
    end in
  {| timing := timing b;
     tasks := setStage i Logged (tasks b);
     trace := trace b ++
       [EvLogged i (logKernelProfile finiteToString name r (values r)
                      (kernelMs t) inputs (Some extraInfo))] |}.

(** One action of the host; [None] when the action is not enabled. *)
Definition step (name : string) (inputs : NamedTensorMap) (a : Action)
  (b : Background) : option Background :=
  match a with
  | ResolveTimer t =>
      match timing b with
      | None => Some {| timing := Some t; tasks := tasks b; trace := trace b |}
      | Some _ => None
      end
  | ResolveData i =>
      match nth_error (tasks b) i with
      | Some (mkTask r AwaitData) => Some (onData name i r b)
      | _ => None
      end
  | RejectData i =>
      match nth_error (tasks b) i with
      | Some (mkTask r AwaitData) =>
          Some {| timing := timing b;
                  tasks := setStage i Abandoned (tasks b);
                  trace := trace b |}
      | _ => None
      end
  | RunTimerCallback i =>
      match nth_error (tasks b) i, timing b with
      | Some (mkTask r AwaitTimer), Some t => Some (onTiming name inputs i r t b)
      | _, _ => None
      end
  end.

(** A schedule: the actions of the host, in order. *)
Fixpoint run (name : string) (inputs : NamedTensorMap)
  (schedule : list Action) (b : Background) : option Background :=
  match schedule with
  | [] => Some b
  | a :: rest =>
      match step name inputs a b with
      | Some b' => run name inputs rest b'
      | None => None
      end
  end.

End ProfileKernel.

(* ================================================================= *)
(** ** The benchmark helper [time] *)

Section Benchmark.

(** State of the program outside [time]: what [doRep], [endTrial] and the
    clock read and write. In this section the callbacks return and the
    promises that [time] awaits are fulfilled, so that the one [throw]
    is that of [time] itself; the two sections further down embed
    [time] again, with callbacks that may throw and with promises that
    may be rejected. *)
Context {W : Type}.

Variable finiteToString : bool -> positive -> Z -> string.

(** [tf.util.now()]: a reading of the clock. *)
Variable now : W -> number * W.

(** The parameters of [time]. [endTrial] is optional; [trials] and [reps]
    hold counts. *)
Variable doRep : nat -> W -> Outputs * W.
Variable endTrial : option (W -> W).
Variable disposeAfterEachTrial : bool.
Variable trials : nat.
Variable reps : nat.

(** What a run of [time] does, in order: calls of [doRep] with their
    results, the two kinds of [await], disposals, readings of the clock,
    and lines written by [console.log]. *)
Variant BenchEvent : Type :=
  | BRep (r : nat) (result : Outputs)
  | BEndTrial
  | BAwaitData (t : Tensor)
  | BDispose (t : Tensor)
  | BNow (x : number)
  | BConsoleLog (line : string).

(** The variables of [time] that its closures share, the outside state
    and the events so far. *)
Record Harness : Type := mkHarness {
  world : W;
  toDispose : list Tensor;
  times : list number;
  log : list BenchEvent
}.

(** The closure [dispose]. *)
Definition dispose (h : Harness) : Harness :=
  {| world := world h;
     toDispose := [];
     times := times h;
     log := log h ++ map BDispose (toDispose h) |}.

(** The [for] loop of [trial], with [k] iterations left, [r] the loop
    counter and [result] the local variable ([None] for [undefined]). *)
Fixpoint repLoop (k r : nat) (result : option Outputs) (h : Harness)
  : option Outputs * Harness :=
  match k with
  | O => (result, h)
  | S k' =>
      let (res, w') := doRep r (world h) in
      repLoop k' (S r) (Some res)
        {| world := w';
           toDispose := toDispose h ++ asArray res;
           times := times h;
           log := log h ++ [BRep r res] |}
  end.

(** [(Array.isArray(result) ? result[0] : result)]: [None] when the value
    is [undefined]. *)
Definition completionProxy (result : option Outputs) : option Tensor :=
  match result with
  | None => None
  | Some (One t) => Some t
  | Some (Many []) => None
  | Some (Many (t :: _)) => Some t
  end.

(** The closure [trial]. Calling [.data()] on [undefined] throws. *)
Definition trial (h : Harness) : completion unit * Harness :=
  let (result, h1) := repLoop reps 0 None h in
  match endTrial with
  | Some hook =>
      (Return tt,
       {| world := hook (world h1);
          toDispose := toDispose h1;
          times := times h1;
          log := log h1 ++ [BEndTrial] |})
  | None =>
      match completionProxy result with
      | Some t =>
          (Return tt,
           {| world := world h1;
              toDispose := toDispose h1;
              times := times h1;
              log := log h1 ++ [BAwaitData t] |})
      | None => (Throw exn_TypeError, h1)
      end
  end.

(** The timed [for] loop, with [k] trials left. *)
Fixpoint timedLoop (k : nat) (h : Harness) : completion unit * Harness :=
  match k with
  | O => (Return tt, h)
  | S k' =>
      let (start, w1) := now (world h) in
      let h1 := {| world := w1;
                   toDispose := toDispose h;
                   times := times h;
                   log := log h ++ [BNow start] |} in
      match trial h1 with
      | (Throw e, h2) => (Throw e, h2)
      | (Return _, h2) =>
          let (stop, w3) := now (world h2) in
          let h3 := {| world := w3;
                       toDispose := toDispose h2;
                       times := times h2 ++ [num_sub stop start];
                       log := log h2 ++ [BNow stop] |} in
          timedLoop k' (if disposeAfterEachTrial then dispose h3 else h3)
      end
  end.

(** The two numbers that [time] reports. *)
Record BenchmarkResult : Type := mkResult {
  mean : number;
  min : number
}.

(** The local [fmt]. *)
Definition fmt (n : number) : string := toFixed3 finiteToString n.

(** The two lines that [time] writes. *)
Definition report (mean min : number) : list BenchEvent :=
  [BConsoleLog ("Mean time: " ++ fmt mean ++ " ms -> "
                ++ fmt (num_div mean (num_of_nat reps)) ++ " / rep");
   BConsoleLog ("Min time: " ++ fmt min ++ " ms -> "
                ++ fmt (num_div min (num_of_nat reps)) ++ " / rep")].

(** [time(doRep, endTrial, disposeAfterEachTrial, trials, reps)]. The
    source returns nothing; the embedding returns the locals [mean] and
    [min] next to the final state. *)
Definition time (w : W) : completion BenchmarkResult * Harness :=
  let h0 := {| world := w; toDispose := []; times := []; log := [] |} in
  match trial h0 with
  | (Throw e, h1) => (Throw e, h1)
  | (Return _, h1) =>
      match timedLoop trials (dispose h1) with
      | (Throw e, h2) => (Throw e, h2)
      | (Return _, h2) =>
          let mean := num_div (reduce_sum (times h2)) (num_of_nat trials) in
          let min := Math_min (times h2) in
          (Return {| mean := mean; min := min |},
           {| world := world h2;
              toDispose := toDispose h2;
              times := times h2;
              log := log h2 ++ report mean min |})
      end
  end.

End Benchmark.

(* ================================================================= *)
(** ** Vocabulary of the statements *)

(** A value that the check refuses: NaN or not finite. *)
Definition offending (x : number) : bool := isNaN x || negb (isFinite x).

(** [p] is [s] filled with spaces on the right up to [width] characters,
    and [s] itself when [s] is at least that long. *)
Definition PaddedTo (s : string) (width : nat) (p : string) : Prop :=
  (exists n, p = (s ++ spaces n)%string) /\
  String.length p = Nat.max width (String.length s).

(** The segment that the record shows for one input, in the words of the
    format: name, colon, rank, the letter D, the shape unless the rank is
    0, and one trailing space. *)
Definition segmentOf (entry : string * Tensor) : string :=
  let (name, input) := entry in
  name ++ ": " ++ Z_toString (Z.of_nat (List.length (shape input))) ++ "D "
       ++ match shape input with
          | [] => ""
          | _ :: _ => Array_toString (shape input)
          end
       ++ " ".

(** The stage of the background work of output [i]. *)
Definition stage_of (ts : list Task) (i : nat) : option Stage :=
  option_map stage (nth_error ts i).

(** In a trace, every record logged for an output comes after the
    materialization of that output and after its check returned. *)
Definition LogAfterCheck (tr : list Event) : Prop :=
  forall pre i args post,
    tr = pre ++ EvLogged i args :: post ->
    In (EvMaterialized i) pre /\ In (EvChecked i (Return tt)) pre.

(** What the stages of the tasks say about the trace. *)
Record Consistent (b : Background) : Prop := mkConsistent {
  cons_order : LogAfterCheck (trace b);
  cons_ready : forall i,
    stage_of (tasks b) i = Some AwaitTimer ->
    In (EvMaterialized i) (trace b) /\ In (EvChecked i (Return tt)) (trace b);
  cons_failed : forall i e,
    In (EvChecked i (Throw e)) (trace b) ->
    stage_of (tasks b) i = Some Abandoned;
  cons_logged : forall i args,
    In (EvLogged i args) (trace b) ->
    stage_of (tasks b) i = Some Logged;
  cons_timing : timing b = None ->
    forall i args, ~ In (EvLogged i args) (trace b)
}.

(** An event that is not a logged record. *)
Definition notLogged (e : Event) : Prop :=
  match e with
  | EvLogged _ _ => False
  | _ => True
  end.

(** The tensors that a repetition produced, by what it returned: the
    tensor itself when it returned a single tensor, the elements in
    their order when it returned a sequence. *)
Definition tensorsOf (result : Outputs) : list Tensor :=
  match result with
  | Many ts => ts
  | One t => [t]
  end.

(** The outputs that the repetitions recorded in a log produced. *)
Definition producedIn (l : list BenchEvent) : list Tensor :=
  flat_map (fun e => match e with
                     | BRep _ res => tensorsOf res
                     | _ => []
                     end) l.

(** The tensors that a log shows being disposed. *)
Definition disposedIn (l : list BenchEvent) : list Tensor :=
  flat_map (fun e => match e with
                     | BDispose t => [t]
                     | _ => []
                     end) l.

(** The clock readings that a log shows. *)
Definition readingsIn (l : list BenchEvent) : list number :=
  flat_map (fun e => match e with
                     | BNow x => [x]
                     | _ => []
                     end) l.

(** The lines that a log shows written by [console.log]. *)
Definition linesIn (l : list BenchEvent) : list string :=
  flat_map (fun e => match e with
                     | BConsoleLog line => [line]
                     | _ => []
                     end) l.

(** The number of repetitions that a log shows. *)
Definition repsIn (l : list BenchEvent) : nat :=
  List.length (filter (fun e => match e with
                                | BRep _ _ => true
                                | _ => false
                                end) l).

(** The results of [k] repetitions numbered from [r], run one after the
    other from the outside state [w]. *)
Fixpoint repResults {W : Type} (doRep : nat -> W -> Outputs * W)
  (k r : nat) (w : W) : list Outputs :=
  match k with
  | O => []
  | S k' => let (res, w') := doRep r w in res :: repResults doRep k' (S r) w'
  end.

(** The outside state that these repetitions leave. *)
Fixpoint repWorld {W : Type} (doRep : nat -> W -> Outputs * W)
  (k r : nat) (w : W) : W :=
  match k with
  | O => w
  | S k' => let (res, w') := doRep r w in repWorld doRep k' (S r) w'
  end.

(** The calls that a log shows for repetitions numbered from [r]. *)
Fixpoint repCalls (r : nat) (results : list Outputs) : list BenchEvent :=
  match results with
  | [] => []
  | res :: rest => BRep r res :: repCalls (S r) rest
  end.

(** The last element of a sequence, if there is one. *)
Fixpoint lastOf {A : Type} (l : list A) : option A :=
  match l with
  | [] => None
  | [x] => Some x
  | _ :: rest => lastOf rest
  end.

(** Clock readings taken in pairs, start then stop, and the elapsed time
    of each pair. *)
Fixpoint durations (readings : list number) : list number :=
  match readings with
  | start :: stop :: rest => num_sub stop start :: durations rest
  | _ => []
  end.

(** The sum of a sequence of numbers: [+0] when it is empty, and
    otherwise the sum of the numbers before the last, plus the last,
    rounded as numbers are. *)
Definition sumOf (xs : list number) : number :=
  fold_right (fun x before => num_add before x) pos_zero (rev xs).

(** [a <= b] on numbers. *)
Definition num_le (a b : number) : bool := SFleb a b.

(** The place of a number other than NaN in the order of [<]: first the
    class (negative infinity, negative, zero, positive, positive
    infinity), then exponent and mantissa, both negated for negative
    numbers. *)
Definition code (x : number) : Z * Z * Z :=
  match x with
  | S754_nan => (0, 0, 0)
  | S754_infinity true => (-2, 0, 0)
  | S754_finite true m e => (-1, - e, - Zpos m)
  | S754_zero _ => (0, 0, 0)
  | S754_finite false m e => (1, e, Zpos m)
  | S754_infinity false => (2, 0, 0)
  end%Z.

(** The lexicographic order on codes. *)
Definition code_le (a b : Z * Z * Z) : Prop :=
  (fst (fst a) < fst (fst b) \/
   (fst (fst a) = fst (fst b) /\
    (snd (fst a) < snd (fst b) \/
     (snd (fst a) = snd (fst b) /\ snd a <= snd b))))%Z.

(** The number [m * 2^e]. *)
Definition dyadic (m e : Z) : number := binary_normalize prec emax m e false.

(** A clock that hands out the readings of a list, one per call. *)
Definition scriptedClock (w : list number) : number * list number :=
  match w with
  | [] => (pos_zero, [])
  | x :: rest => (x, rest)
  end.

(* ================================================================= *)
(** ** Sample inputs *)

(** A [float32] output with finite values, and one with a NaN. *)
Definition sampleTensor : Tensor :=
  mkTensor 7 float32 [2%Z] 1 2 [dyadic 1 0; dyadic 3 (-1)].

Definition nanTensor : Tensor :=
  mkTensor 8 float32 [2%Z] 1 2 [dyadic 1 0; S754_nan].

(** A stand-in for the engine's rendering of finite numbers. *)
Definition sampleRender (s : bool) (m : positive) (e : Z) : string := "1.5".

(** A timer that runs the work once, between two steps of its own, on an
    outside state that counts steps. *)
Definition sampleTimer : @BackendTimer nat := [HostStep S; RunWork; HostStep S].

(** A kernel with two outputs. *)
Definition sampleThunk : @Thunk nat :=
  fun w => (Many [nanTensor; sampleTensor], S w).

Definition sampleTiming : BackendTimingInfo :=
  {| kernelMs := dyadic 3 (-1); getExtraProfileInfo := None |}.

(** A kernel with no output. *)
Definition emptyThunk : @Thunk nat := fun w => (Many [], S w).

(** The state outside a sample benchmark: how many tensors have been
    made, the identifiers of those that have not been disposed, and the
    readings that the clock has still to give. *)
Record BenchState : Type := mkBenchState {
  st_made : nat;
  st_live : list nat;
  st_clock : list number
}.

(** A tensor like [sampleTensor] with identifier [i]. *)
Definition tensorNo (i : nat) : Tensor :=
  mkTensor i float32 [2%Z] 1 2 [dyadic 1 0; dyadic 3 (-1)].

(** A repetition with one output, a new tensor at each call, as in the
    [matMul] benchmark. *)
Definition sampleRep (r : nat) (s : BenchState) : Outputs * BenchState :=
  (One (tensorNo (st_made s)),
   {| st_made := S (st_made s);
      st_live := st_made s :: st_live s;
      st_clock := st_clock s |}).

(** The clock of a sample benchmark. *)
Definition sampleNow (s : BenchState) : number * BenchState :=
  let (x, rest) := scriptedClock (st_clock s) in
  (x, {| st_made := st_made s; st_live := st_live s; st_clock := rest |}).

(** Six readings of the clock, in milliseconds: 0, 1.4045, 2, 3.4045,
    3.4045 and 4.809, each the number nearest to the decimal. Three
    trials that each take 1.4045 milliseconds, with a pause after the
    first. *)
Definition sampleClock : list number :=
  [dyadic 0 0; dyadic 6325305676641862 (-52);
   dyadic 2 0; dyadic 15332504931382854 (-52);
   dyadic 15332504931382854 (-52); dyadic 21657810608024716 (-52)].

(** The state in which the sample benchmarks start: no tensor yet, and
    the readings of [sampleClock]. *)
Definition sampleStart : BenchState :=
  {| st_made := 0; st_live := []; st_clock := sampleClock |}.

(* ================================================================= *)
(** ** Vocabulary of further statements *)

(** How often a trace shows a record logged for output [i], the check of
    output [i] completed, and a line written to [console.error]. *)
Definition timesLogged (i : nat) (tr : list Event) : nat :=
  List.length (filter (fun e => match e with
                                | EvLogged j _ => Nat.eqb i j
                                | _ => false
                                end) tr).

Definition timesChecked (i : nat) (tr : list Event) : nat :=
  List.length (filter (fun e => match e with
                                | EvChecked j _ => Nat.eqb i j
                                | _ => false
                                end) tr).

Definition errorLines (tr : list Event) : nat :=
  List.length (filter (fun e => match e with
                                | EvConsoleError _ => true
                                | _ => false
                                end) tr).

(** The tasks whose [data()] promise is not settled yet. *)
Definition isPending (t : Task) : bool :=
  match stage t with
  | AwaitData => true
  | _ => false
  end.

Definition pendingCount (ts : list Task) : nat :=
  List.length (filter isPending ts).

(** What the stages of the tasks say about how often things happened. *)
Record Once (b : Background) : Prop := mkOnce {
  once_logged : forall i,
    timesLogged i (trace b)
    = match stage_of (tasks b) i with
      | Some Logged => 1
      | _ => 0
      end;
  once_checked : forall i, timesChecked i (trace b) <= 1;
  once_unchecked : forall i,
    stage_of (tasks b) i = Some AwaitData -> timesChecked i (trace b) = 0;
  once_lines :
    errorLines (trace b) + pendingCount (tasks b) <= List.length (tasks b)
}.

Section InTurn.

Variable finiteToString : bool -> positive -> Z -> string.
Variable name : string.
Variable inputs : NamedTensorMap.
Variable t : BackendTimingInfo.

(** Whether the check of an output returns. *)
Definition passes (r : Tensor) : bool :=
  match snd (checkComputationForErrors finiteToString (dtype r) (values r)
               name) with
  | Return _ => true
  | Throw _ => false
  end.

(** The schedule in which each output in turn, from index [i] on, has its
    values settled and then, when its check returned, its [timer.then]
    callback run. *)
Fixpoint inTurn (i : nat) (outs : list Tensor) : list Action :=
  match outs with
  | [] => []
  | r :: rest =>
      ResolveData i
        :: (if passes r then [RunTimerCallback i] else [])
        ++ inTurn (S i) rest
  end.

(** What the callback of [r.data().then] does for output [i]. *)
Definition dataEvents (i : nat) (r : Tensor) : list Event :=
  let (lines, c) :=
    checkComputationForErrors finiteToString (dtype r) (values r) name in
  EvMaterialized i :: map EvConsoleError lines ++ [EvChecked i c].

(** The record of output [r] under the timing [t]. *)
Definition recordOf (r : Tensor) : list string :=
  logKernelProfile finiteToString name r (values r) (kernelMs t) inputs
    (Some match getExtraProfileInfo t with
          | Some s => s
          | None => ""
          end).

(** For each output in turn: its values materialized, the lines of its
    check, the completion of its check and, when the check returned, its
    record. *)
Fixpoint inTurnTrace (i : nat) (outs : list Tensor) : list Event :=
  match outs with
  | [] => []
  | r :: rest =>
      dataEvents i r
        ++ (if passes r then [EvLogged i (recordOf r)] else [])
        ++ inTurnTrace (S i) rest
  end.

(** The stage that an output reaches in that schedule. *)
Definition finalTask (r : Tensor) : Task :=
  mkTask r (if passes r then Logged else Abandoned).

End InTurn.

(* ================================================================= *)
(** ** The benchmark helper with callbacks that may throw *)

Section BenchmarkThrowing.

Context {W : Type}.
Variable finiteToString : bool -> positive -> Z -> string.
Variable now : W -> number * W.

(** [doRep] and [endTrial] as functions that return or throw. *)
Variable doRep : nat -> W -> completion Outputs * W.
Variable endTrial : option (W -> completion unit * W).
Variable disposeAfterEachTrial : bool.
Variable trials : nat.
Variable reps : nat.

(** The [for] loop of [trial]; a throw of [doRep] ends it. *)
Fixpoint repLoopE (k r : nat) (result : option Outputs) (h : Harness)
  : completion (option Outputs) * Harness :=
  match k with
  | O => (Return result, h)
  | S k' =>
      match doRep r (world h) with
      | (Throw e, w') =>
          (Throw e,
           {| world := w'; toDispose := toDispose h; times := times h;
              log := log h |})
      | (Return res, w') =>
          repLoopE k' (S r) (Some res)
            {| world := w';
               toDispose := toDispose h ++ asArray res;
               times := times h;
               log := log h ++ [BRep r res] |}
      end
  end.

(** The closure [trial]; a throw of the hook is thrown on by the
    [await]. *)
Definition trialE (h : Harness) : completion unit * Harness :=
  match repLoopE reps 0 None h with
  | (Throw e, h1) => (Throw e, h1)
  | (Return result, h1) =>
      match endTrial with
      | Some hook =>
          let (c, w') := hook (world h1) in
          (c,
           {| world := w';
              toDispose := toDispose h1;
              times := times h1;
              log := log h1 ++ [BEndTrial] |})
      | None =>
          match completionProxy result with
          | Some t =>
              (Return tt,
               {| world := world h1;
                  toDispose := toDispose h1;
                  times := times h1;
                  log := log h1 ++ [BAwaitData t] |})
          | None => (Throw exn_TypeError, h1)
          end
      end
  end.

(** The timed [for] loop. *)
Fixpoint timedLoopE (k : nat) (h : Harness) : completion unit * Harness :=
  match k with
  | O => (Return tt, h)
  | S k' =>
      let (start, w1) := now (world h) in
      let h1 := {| world := w1;
                   toDispose := toDispose h;
                   times := times h;
                   log := log h ++ [BNow start] |} in
      match trialE h1 with
      | (Throw e, h2) => (Throw e, h2)
      | (Return _, h2) =>
          let (stop, w3) := now (world h2) in
          let h3 := {| world := w3;
                       toDispose := toDispose h2;
                       times := times h2 ++ [num_sub stop start];
                       log := log h2 ++ [BNow stop] |} in
          timedLoopE k' (if disposeAfterEachTrial then dispose h3 else h3)
      end
  end.

(** [time], as above, with these callbacks. *)
Definition timeE (w : W) : completion BenchmarkResult * Harness :=
  let h0 := {| world := w; toDispose := []; times := []; log := [] |} in
  match trialE h0 with
  | (Throw e, h1) => (Throw e, h1)
  | (Return _, h1) =>
      match timedLoopE trials (dispose h1) with
      | (Throw e, h2) => (Throw e, h2)
      | (Return _, h2) =>
          let mean := num_div (reduce_sum (times h2)) (num_of_nat trials) in
          let min := Math_min (times h2) in
          (Return {| mean := mean; min := min |},
           {| world := world h2;
              toDispose := toDispose h2;
              times := times h2;
              log := log h2 ++ report finiteToString reps mean min |})
      end
  end.

End BenchmarkThrowing.

(** A callback that always returns, as one that may throw. *)
Definition returning {W A : Type} (f : W -> A * W) (w : W)
  : completion A * W :=
  let (a, w') := f w in (Return a, w').

Definition returningHook {W : Type} (hook : W -> W) (w : W)
  : completion unit * W :=
  (Return tt, hook w).

(* ================================================================= *)
(** ** The benchmark helper with promises that may be rejected *)

(** What [await p] comes to: the value that [p] is fulfilled with, a
    [throw] of the value that [p] is rejected with, or nothing at all
    when [p] is never settled. The call of an [async] function comes to
    one of these as well. *)
Variant Awaited (A : Type) : Type :=
  | Fulfilled (a : A)
  | Rejected (e : Exception)
  | Unsettled.

Arguments Fulfilled {A} a.
Arguments Rejected {A} e.
Arguments Unsettled {A}.

Section BenchmarkAwaiting.

Context {W : Type}.
Variable finiteToString : bool -> positive -> Z -> string.
Variable now : W -> number * W.

(** [doRep] returns or throws; [await endTrial()] comes to one of the
    three. *)
Variable doRep : nat -> W -> completion Outputs * W.
Variable endTrial : option (W -> Awaited unit * W).

(** Modelled from the spec: the two methods of [Tensor] that [time]
    calls ([tensor.ts] is not among the sources). [await t.data()] is the
    spec's "materialize", a future; [t.dispose()] is its "release", which
    is synchronous and does not raise. Both act on the state outside. *)
Variable tensorData : Tensor -> W -> Awaited unit * W.
Variable tensorDispose : Tensor -> W -> W.

Variable disposeAfterEachTrial : bool.
Variable trials : nat.
Variable reps : nat.

(** The closure [dispose]: [t.dispose()] for each tensor of [toDispose],
    in order. *)
Definition disposeA (h : Harness) : Harness :=
  {| world := fold_left (fun w t => tensorDispose t w) (toDispose h)
                (world h);
     toDispose := [];
     times := times h;
     log := log h ++ map BDispose (toDispose h) |}.

(** The [for] loop of [trial]; a throw of [doRep] ends it. *)
Fixpoint repLoopA (k r : nat) (result : option Outputs) (h : Harness)
  : completion (option Outputs) * Harness :=
  match k with
  | O => (Return result, h)
  | S k' =>
      match doRep r (world h) with
      | (Throw e, w') =>
          (Throw e,
           {| world := w'; toDispose := toDispose h; times := times h;
              log := log h |})
      | (Return res, w') =>
          repLoopA k' (S r) (Some res)
            {| world := w';
               toDispose := toDispose h ++ asArray res;
               times := times h;
               log := log h ++ [BRep r res] |}
      end
  end.

(** The closure [trial], an [async] function: a throw in its body
    rejects its promise, and it is settled only if what it awaits is. *)
Definition trialA (h : Harness) : Awaited unit * Harness :=
  match repLoopA reps 0 None h with
  | (Throw e, h1) => (Rejected e, h1)
  | (Return result, h1) =>
      match endTrial with
      | Some hook =>
          let (a, w') := hook (world h1) in
          (a,
           {| world := w';
              toDispose := toDispose h1;
              times := times h1;
              log := log h1 ++ [BEndTrial] |})
      | None =>
          match completionProxy result with
          | Some t =>
              let (a, w') := tensorData t (world h1) in
              (a,
               {| world := w';
                  toDispose := toDispose h1;
                  times := times h1;
                  log := log h1 ++ [BAwaitData t] |})
          | None => (Rejected exn_TypeError, h1)
          end
      end
  end.

(** The timed [for] loop, with [k] trials left. *)
Fixpoint timedLoopA (k : nat) (h : Harness) : Awaited unit * Harness :=
  match k with
  | O => (Fulfilled tt, h)
  | S k' =>
      let (start, w1) := now (world h) in
      let h1 := {| world := w1;
                   toDispose := toDispose h;
                   times := times h;
                   log := log h ++ [BNow start] |} in
      match trialA h1 with
      | (Rejected e, h2) => (Rejected e, h2)
      | (Unsettled, h2) => (Unsettled, h2)
      | (Fulfilled _, h2) =>
          let (stop, w3) := now (world h2) in
          let h3 := {| world := w3;
                       toDispose := toDispose h2;
                       times := times h2 ++ [num_sub stop start];
                       log := log h2 ++ [BNow stop] |} in
          timedLoopA k' (if disposeAfterEachTrial then disposeA h3 else h3)
      end
  end.

(** [time(doRep, endTrial, disposeAfterEachTrial, trials, reps)], an
    [async] function, with the locals [mean] and [min] as the value of
    its promise. *)
Definition timeA (w : W) : Awaited BenchmarkResult * Harness :=
  let h0 := {| world := w; toDispose := []; times := []; log := [] |} in
  match trialA h0 with
  | (Rejected e, h1) => (Rejected e, h1)
  | (Unsettled, h1) => (Unsettled, h1)
  | (Fulfilled _, h1) =>
      match timedLoopA trials (disposeA h1) with
      | (Rejected e, h2) => (Rejected e, h2)
      | (Unsettled, h2) => (Unsettled, h2)
      | (Fulfilled _, h2) =>
          let mean := num_div (reduce_sum (times h2)) (num_of_nat trials) in
          let min := Math_min (times h2) in
          (Fulfilled {| mean := mean; min := min |},
           {| world := world h2;
              toDispose := toDispose h2;
              times := times h2;
              log := log h2 ++ report finiteToString reps mean min |})
      end
  end.

End BenchmarkAwaiting.

(** A call that returns or throws, as what awaiting it comes to. *)
Definition settled {A : Type} (c : completion A) : Awaited A :=
  match c with
  | Return a => Fulfilled a
  | Throw e => Rejected e
  end.

Definition settledHook {W : Type} (hook : W -> completion unit * W) (w : W)
  : Awaited unit * W :=
  let (c, w') := hook w in (settled c, w').

(** Values that can always be read, and a disposal that nothing outside
    the tensor notices. *)
Definition readable {W : Type} (t : Tensor) (w : W) : Awaited unit * W :=
  (Fulfilled tt, w).

Definition unnoticed {W : Type} (t : Tensor) (w : W) : W := w.

(* ================================================================= *)
(** ** Sample benchmarks *)

(** The values of a tensor can be read as long as it has not been
    disposed; after that the library rejects the reading. *)
Definition sampleData (t : Tensor) (s : BenchState)
  : Awaited unit * BenchState :=
  if existsb (Nat.eqb (tid t)) (st_live s) then (Fulfilled tt, s)
  else (Rejected (exn_Error "Tensor is disposed."), s).

Definition sampleDispose (t : Tensor) (s : BenchState) : BenchState :=
  {| st_made := st_made s;
     st_live := filter (fun i => negb (Nat.eqb i (tid t))) (st_live s);
     st_clock := st_clock s |}.

(** A repetition that returns a new tensor, as one that may throw. *)
Definition freshRep (r : nat) (s : BenchState)
  : completion Outputs * BenchState :=
  returning (sampleRep r) s.

(** A repetition that makes one tensor, the first time it is called, and
    returns that same tensor at every call. *)
Definition staleRep (r : nat) (s : BenchState)
  : completion Outputs * BenchState :=
  match st_made s with
  | O => returning (sampleRep r) s
  | S _ => (Return (One (tensorNo 0)), s)
  end.

(** A repetition that returns a new tensor at index 0 and an empty
    sequence at every other index. *)
Definition unevenRep (r : nat) (s : BenchState)
  : completion Outputs * BenchState :=
  match r with
  | O => returning (sampleRep r) s
  | S _ => (Return (Many []), s)
  end.

(* ================================================================= *)
(** ** Vocabulary of the statements on promises *)

(** Where a rejection of a trial with [e] can come from, [l] being the
    log when it happens: a call of [doRep] threw [e]; the hook was
    awaited last and its promise was rejected with [e]; the values of
    a tensor were awaited last and their promise was rejected with
    [e]; or [e] is the TypeError of reading [data] on [undefined], with
    no hook, when no repetition ran or the last one, which the log ends
    with, returned an empty sequence. *)
Definition rejectedBy {W : Type}
  (doRep : nat -> W -> completion Outputs * W)
  (endTrial : option (W -> Awaited unit * W))
  (tensorData : Tensor -> W -> Awaited unit * W)
  (reps : nat) (e : Exception) (l : list BenchEvent) : Prop :=
  (exists r w, fst (doRep r w) = Throw e) \/
  (exists hook w pre,
      endTrial = Some hook /\ fst (hook w) = Rejected e /\
      l = pre ++ [BEndTrial]) \/
  (exists t w pre,
      endTrial = None /\ fst (tensorData t w) = Rejected e /\
      l = pre ++ [BAwaitData t]) \/
  (e = exn_TypeError /\ endTrial = None /\
   (reps = 0 \/ exists pre, l = pre ++ [BRep (reps - 1) (Many [])])).

(** Where a trial that is never settled can be waiting: at the hook or
    at the values of a tensor, the last thing that the log shows. *)
Definition unsettledBy {W : Type}
  (endTrial : option (W -> Awaited unit * W))
  (tensorData : Tensor -> W -> Awaited unit * W)
  (l : list BenchEvent) : Prop :=
  (exists hook w pre,
      endTrial = Some hook /\ fst (hook w) = Unsettled /\
      l = pre ++ [BEndTrial]) \/
  (exists t w pre,
      endTrial = None /\ fst (tensorData t w) = Unsettled /\
      l = pre ++ [BAwaitData t]).

(* ================================================================= *)
(** ** The [argMax] benchmark *)

(** [a[i] = v] on an array with holes: the array grows when [i] is past
    its end. *)
Fixpoint assign {A : Type} (a : list (option A)) (i : nat) (v : A)
  : list (option A) :=
  match a, i with
  | [], O => [Some v]
  | [], S j => None :: assign [] j v
  | _ :: rest, O => Some v :: rest
  | x :: rest, S j => x :: assign rest j v
  end.

Module ArgMax.

Section ArgMaxBenchmark.

(** State outside the benchmark: here only the clock reads it. *)
Context {C : Type}.
Variable finiteToString : bool -> positive -> Z -> string.
Variable clock : C -> number * C.

(** [tf.randomNormal([100, 100, 100])] at its [i]-th call in the loop of
    [doTest], and [tf.argMax(x, axis)], whose first argument may be
    [undefined]. *)
Variable randomNormal : nat -> Tensor.
Variable argMax : option Tensor -> Z -> completion Tensor.

(** The variables that the callbacks of [doTest] share: the array
    [maxes], the tensors whose values the hook has awaited and those it
    has disposed, and the state outside. *)
Record TestState : Type := mkTestState {
  maxes : list (option Tensor);
  awaited : list Tensor;
  released : list Tensor;
  outside : C
}.

Definition n : nat := 50.

(** [tensors], after the loop that fills it. *)
Definition tensors : list Tensor := map randomNormal (seq 0 n).

(** [tf.util.now()] on the state of the test. *)
Definition nowOf (s : TestState) : number * TestState :=
  let (x, c) := clock (outside s) in
  (x, {| maxes := maxes s; awaited := awaited s; released := released s;
         outside := c |}).

(** The first callback: [(r) => { maxes[r] = tf.argMax(tensors[r], axis);
    return []; }]. *)
Definition argMaxRep (axis : Z) (r : nat) (s : TestState)
  : completion Outputs * TestState :=
  match argMax (nth_error tensors r) axis with
  | Throw e => (Throw e, s)
  | Return m =>
      (Return (Many []),
       {| maxes := assign (maxes s) r m; awaited := awaited s;
          released := released s; outside := outside s |})
  end.

(** [for (const t of maxes) { t.dispose(); }]: a hole is read as
    [undefined], on which the call throws. *)
Fixpoint disposeAll (ms : list (option Tensor)) (s : TestState)
  : completion unit * TestState :=
  match ms with
  | [] => (Return tt, s)
  | None :: _ => (Throw exn_TypeError, s)
  | Some t :: rest =>
      disposeAll rest
        {| maxes := maxes s; awaited := awaited s;
           released := released s ++ [t]; outside := outside s |}
  end.

(** The second callback: [await maxes[maxes.length - 1].data()], then the
    loop. *)
Definition argMaxEnd (s : TestState) : completion unit * TestState :=
  match nth_error (maxes s) (List.length (maxes s) - 1) with
  | Some (Some t) =>
      disposeAll (maxes s)
        {| maxes := maxes s; awaited := awaited s ++ [t];
           released := released s; outside := outside s |}
  | _ => (Throw exn_TypeError, s)
  end.

(** [doTest(axis)]: [maxes] starts as [new Array(n)], and [time] is
    called with its defaults: no disposal after each trial, 50 trials of
    1 repetition. *)
Definition doTest (axis : Z) (c : C)
  : completion BenchmarkResult * Harness :=
  timeE finiteToString nowOf (argMaxRep axis) (Some argMaxEnd) false 50 1
    {| maxes := repeat None n; awaited := []; released := [];
       outside := c |}.

End ArgMaxBenchmark.

End ArgMax.

(* ================================================================= *)
(** ** The component [App] *)

Module App.

(** [type Screen = 'main' | 'diag' | 'demo']. *)
Variant Screen : Type :=
  | main
  | diag
  | demo.

(** [interface AppState]. *)
Record AppState : Type := mkState {
  isTfReady : bool;
  currentScreen : Screen
}.

(** [this.state] as the constructor sets it. *)
Definition initialState : AppState :=
  {| isTfReady := false; currentScreen := main |}.

(** [componentDidMount], once the backend is set and ready:
    [setState({ isTfReady: true })]. *)
Definition componentDidMount (s : AppState) : AppState :=
  {| isTfReady := true; currentScreen := currentScreen s |}.

Definition showDiagnosticScreen (s : AppState) : AppState :=
  {| isTfReady := isTfReady s; currentScreen := diag |}.

Definition showDemoScreen (s : AppState) : AppState :=
  {| isTfReady := isTfReady s; currentScreen := demo |}.

Definition showMainScreen (s : AppState) : AppState :=
  {| isTfReady := isTfReady s; currentScreen := main |}.

(** The three bound methods, as values passed to elements. *)
Variant Handler : Type :=
  | ShowDiagnosticScreen
  | ShowDemoScreen
  | ShowMainScreen.

(** A call of a bound method. *)
Definition invoke (h : Handler) : AppState -> AppState :=
  match h with
  | ShowDiagnosticScreen => showDiagnosticScreen
  | ShowDemoScreen => showDemoScreen
  | ShowMainScreen => showMainScreen
  end.

Local Unset Elimination Schemes.

(** The elements that the render methods build, with the properties they
    set; styles are named by their key in [styles]. *)
Inductive Element : Type :=
  | Fragment (children : list Element)
  | StatusBar (barStyle : string)
  | SafeAreaView (children : list Element)
  | ScrollView (contentInsetAdjustmentBehavior style : string)
               (children : list Element)
  | View (style : string) (children : list Element)
  | Text (style : string) (text : string)
  | Button (onPress : Handler) (title : string)
  | Diagnostic (returnToMain : Handler)
  | MobilenetDemo (image : string) (returnToMain : Handler).

Local Set Elimination Schemes.

Definition renderMainScreen : Element :=
  Fragment
    [View "sectionContainer"
       [Text "sectionTitle" "Diagnostic";
        Button ShowDiagnosticScreen "Show Diagnostic Screen"];
     View "sectionContainer"
       [Text "sectionTitle" "Demo";
        Button ShowDemoScreen "Show Demo Screen"]].

Definition renderDiagnosticScreen : Element :=
  Fragment [Diagnostic ShowMainScreen].

Definition renderDemoScreen : Element :=
  Fragment [MobilenetDemo "./assets/images/catsmall.jpg" ShowMainScreen].

Definition renderLoadingTF : Element :=
  Fragment [View "sectionContainer" [Text "sectionTitle" "Loading TF"]].

Definition renderContent (s : AppState) : Element :=
  if isTfReady s then
    match currentScreen s with
    | main => renderMainScreen
    | diag => renderDiagnosticScreen
    | demo => renderDemoScreen
    end
  else renderLoadingTF.

Definition render (s : AppState) : Element :=
  Fragment
    [StatusBar "dark-content";
     SafeAreaView
       [ScrollView "automatic" "scrollView"
          [View "body" [renderContent s]]]].

(** The handlers that an element and the elements below it hold, from
    left to right. *)
Fixpoint handlers (e : Element) : list Handler :=
  match e with
  | Fragment cs | SafeAreaView cs | ScrollView _ _ cs | View _ cs =>
      flat_map handlers cs
  | StatusBar _ | Text _ _ => []
  | Button h _ | Diagnostic h | MobilenetDemo _ h => [h]
  end.

(** What can happen to a mounted component: the backend becomes ready,
    or a handler is called. *)
Variant AppEvent : Type :=
  | DidMount
  | Call (h : Handler).

Definition after (s : AppState) (e : AppEvent) : AppState :=
  match e with
  | DidMount => componentDidMount s
  | Call h => invoke h s
  end.

(** The screen that a handler asks for. *)
Definition asks (h : Handler) : Screen :=
  currentScreen (invoke h initialState).

(** The screen that the last call of a handler in [events] asks for,
    [start] when there is none. *)
Fixpoint lastAsked (start : Screen) (events : list AppEvent) : Screen :=
  match events with
  | [] => start
  | DidMount :: rest => lastAsked start rest
  | Call h :: rest => lastAsked (asks h) rest
  end.

Definition isDidMount (e : AppEvent) : bool :=
  match e with
  | DidMount => true
  | Call _ => false
  end.

End App.

(* ================================================================= *)
(** ** Strings *)

Lemma append_assoc (a b c : string) :
  ((a ++ b) ++ c = a ++ (b ++ c))%string.
Proof.
  induction a as [|ch a IH]; simpl; [reflexivity|].
  now rewrite IH.
Qed.

Lemma append_nil_r (a : string) : (a ++ "")%string = a.
Proof.
  induction a as [|ch a IH]; simpl; [reflexivity|].
  now rewrite IH.
Qed.

Lemma length_append (a b : string) :
  String.length (a ++ b)%string = String.length a + String.length b.
Proof.
  induction a as [|ch a IH]; simpl; [reflexivity|].
  now rewrite IH.
Qed.

Lemma length_spaces (n : nat) : String.length (spaces n) = n.
Proof.
  induction n as [|n IH]; simpl; [reflexivity|].
  now rewrite IH.
Qed.

Lemma append_inv_head (a b c : string) :
  (a ++ b)%string = (a ++ c)%string -> b = c.
Proof.
  induction a as [|ch a IH]; simpl; intros H; [exact H|].
  injection H as H. now apply IH.
Qed.

Lemma rightPad_padded (s : string) (width : nat) :
  PaddedTo s width (rightPad s width).
Proof.
  unfold PaddedTo, rightPad.
  destruct (Nat.leb_spec width (String.length s)) as [Hle|Hlt].
  - split.
    + exists 0. simpl. now rewrite append_nil_r.
    + lia.
  - split.
    + now exists (width - String.length s).
    + rewrite length_append, length_spaces. lia.
Qed.

(* ================================================================= *)
(** ** checkComputationForErrors *)

Section CheckFacts.

Variable finiteToString : bool -> positive -> Z -> string.

Lemma DataType_eq_dec (a b : DataType) : {a = b} + {a <> b}.
Proof. decide equality. Qed.

Lemma checkLoop_clean (vals : list number) (name : string) :
  Forall (fun x => offending x = false) vals ->
  checkLoop finiteToString vals name = ([], Return tt).
Proof.
  induction 1 as [|x rest Hx _ IH]; simpl; [reflexivity|].
  unfold offending in Hx. now rewrite Hx.
Qed.

Lemma checkLoop_first (pre post : list number) (num : number)
  (name : string) :
  Forall (fun x => offending x = false) pre ->
  offending num = true ->
  checkLoop finiteToString (pre ++ num :: post) name
  = ([errorMessage finiteToString name num], Throw exn_undefined).
Proof.
  intros Hpre Hnum.
  induction Hpre as [|x rest Hx _ IH]; simpl.
  - unfold offending in Hnum. now rewrite Hnum.
  - unfold offending in Hx. now rewrite Hx.
Qed.

Lemma first_offending (vals : list number) :
  Exists (fun x => offending x = true) vals ->
  exists pre num post,
    vals = pre ++ num :: post /\
    Forall (fun x => offending x = false) pre /\
    offending num = true.
Proof.
  induction 1 as [x rest Hx|x rest _ IH].
  - now exists [], x, rest.
  - destruct (offending x) eqn:Hx.
    + now exists [], x, rest.
    + destruct IH as (pre & num & post & -> & Hpre & Hnum).
      exists (x :: pre), num, post. repeat split; auto.
Qed.

Lemma checkLoop_throws_iff (vals : list number) (name : string) :
  (exists e, snd (checkLoop finiteToString vals name) = Throw e) <->
  Exists (fun x => offending x = true) vals.
Proof.
  split.
  - intros [e He].
    destruct (Forall_Exists_dec (fun x => offending x = false)
                (fun x => bool_dec (offending x) false) vals) as [Hall|Hex].
    + rewrite (checkLoop_clean _ _ Hall) in He. discriminate.
    + eapply Exists_impl; [|exact Hex].
      intros x Hx. simpl in Hx. now destruct (offending x).
  - intros Hex.
    destruct (first_offending _ Hex) as (pre & num & post & -> & Hpre & Hnum).
    rewrite (checkLoop_first _ _ _ _ Hpre Hnum). now exists exn_undefined.
Qed.

Lemma finite_not_offending (x : number) :
  isFinite x = true -> offending x = false.
Proof. now destruct x as [s|s| |s m e]. Qed.

(** C2. [checkComputationForErrors] throws exactly when the element type
    is [float32] and some element of the values is NaN or not finite; in
    particular it returns, writing nothing, for every other element type
    whatever the values, and for every [float32] array of finite
    values. *)
Theorem checkComputationForErrors_throws_iff :
  (forall (dtype : DataType) (vals : DataTypeMap dtype) (name : string),
      (exists e, snd (checkComputationForErrors finiteToString dtype vals name) = Throw e) <->
      (exists E : dtype = float32,
          Exists (fun x => offending x = true)
                 (eq_rect dtype DataTypeMap vals float32 E))) /\
  (forall (dtype : DataType) (vals : DataTypeMap dtype) (name : string),
      dtype <> float32 -> checkComputationForErrors finiteToString dtype vals name = ([], Return tt)) /\
  (forall (vals : list number) (name : string),
      Forall (fun x => isFinite x = true) vals ->
      checkComputationForErrors finiteToString float32 vals name = ([], Return tt)).
Proof.
  split; [|split].
  - intros dtype vals name. split.
    + intros [e He]. destruct dtype; try discriminate He.
      exists eq_refl. simpl. apply (checkLoop_throws_iff vals name).
      now exists e.
    + intros [E Hex]. destruct dtype; try discriminate E.
      rewrite (UIP_dec DataType_eq_dec E eq_refl) in Hex. simpl in Hex.
      now apply (checkLoop_throws_iff vals name).
  - intros dtype vals name Hd. destruct dtype; try reflexivity.
    now elim Hd.
  - intros vals name Hfin. simpl. apply checkLoop_clean.
    eapply Forall_impl; [|exact Hfin].
    intros x. apply finite_not_offending.
Qed.

Lemma offending_text (x y : number) :
  offending x = true -> offending y = true ->
  Number_toString finiteToString x = Number_toString finiteToString y ->
  x = y.
Proof.
  destruct x as [s|[|]| |s m e]; destruct y as [s'|[|]| |s' m' e'];
    simpl; try discriminate; reflexivity.
Qed.

(** C3. On a [float32] array with a NaN or non-finite element the check
    reports once: it writes the single line built from the kernel name
    and the first such element in index order, and throws. Nothing before
    that element is refused, and the line tells which of NaN, Infinity
    and -Infinity the element is. *)
Theorem checkComputationForErrors_reports_first
  (vals : list number) (name : string) :
  Exists (fun x => offending x = true) vals ->
  exists pre num post,
    vals = pre ++ num :: post /\
    Forall (fun x => offending x = false) pre /\
    offending num = true /\
    checkComputationForErrors finiteToString float32 vals name
    = ([("The result of the '" ++ name ++ "' is "
           ++ Number_toString finiteToString num ++ ".")%string],
       Throw exn_undefined) /\
    (forall other, offending other = true ->
       errorMessage finiteToString name other = errorMessage finiteToString name num -> other = num).
Proof.
  intros Hex.
  destruct (first_offending _ Hex) as (pre & num & post & -> & Hpre & Hnum).
  exists pre, num, post. repeat split; auto.
  - simpl. now rewrite (checkLoop_first _ _ _ _ Hpre Hnum).
  - intros other Hother Heq. unfold errorMessage in Heq.
    apply append_inv_head in Heq. apply append_inv_head in Heq.
    apply append_inv_head in Heq.
    apply offending_text; auto.
    assert (Hlen : String.length (Number_toString finiteToString other)
                   = String.length (Number_toString finiteToString num)).
    { apply (f_equal String.length) in Heq.
      rewrite !length_append in Heq. simpl in Heq. lia. }
    clear - Hother Hnum Heq Hlen.
    destruct other as [s|[|]| |s m e]; destruct num as [s'|[|]| |s' m' e'];
      simpl in *; try discriminate; reflexivity.
Qed.

End CheckFacts.

(* ================================================================= *)
(** ** Logger.logKernelProfile *)

Section LoggerFacts.

Variable finiteToString : bool -> positive -> Z -> string.

Lemma concat_cons (x : string) (xs : list string) :
  String.concat "" (x :: xs) = (x ++ String.concat "" xs)%string.
Proof.
  destruct xs as [|y ys]; simpl; [now rewrite append_nil_r|reflexivity].
Qed.

Lemma inputSegment_segmentOf (name : string) (input : Tensor) :
  inputSegment name input = segmentOf (name, input).
Proof.
  unfold inputSegment, segmentOf.
  destruct (shape input) as [|d ds]; reflexivity.
Qed.

Lemma describeInputs_concat (inputs : NamedTensorMap) (acc : string) :
  describeInputs acc inputs
  = (acc ++ String.concat "" (map segmentOf inputs))%string.
Proof.
  revert acc.
  induction inputs as [|[name input] rest IH]; intros acc.
  - simpl. now rewrite append_nil_r.
  - cbn [describeInputs map]. rewrite IH, concat_cons, append_assoc.
    now rewrite inputSegment_segmentOf.
Qed.

(** C8. The record that [logKernelProfile] hands to [console.log] shows
    the kernel name padded on the right to at least 25 characters, the
    timing as the number followed by [ms] padded to at least 9, the
    output shape padded to at least 14, and then, for the inputs in
    iteration order, the segments name, colon, rank, D, shape (nothing
    for rank 0) and one space, put together with nothing between them. *)
Theorem logKernelProfile_record
  (name : string) (result : Tensor) (vals : DataTypeMap (dtype result))
  (timeMs : number) (inputs : NamedTensorMap) (extraInfo : option string) :
  exists paddedName time shapeColumn,
    PaddedTo name 25 paddedName /\
    PaddedTo (Number_toString finiteToString timeMs ++ "ms") 9 time /\
    PaddedTo (Array_toString (shape result)) 14 shapeColumn /\
    logKernelProfile finiteToString name result vals timeMs inputs extraInfo
    = ("%c" ++ paddedName ++ tab
        ++ "%c" ++ time ++ tab
        ++ "%c" ++ Z_toString (rank result) ++ "D " ++ shapeColumn ++ tab
        ++ "%c" ++ Z_toString (size result) ++ tab
        ++ "%c" ++ String.concat "" (map segmentOf inputs) ++ tab
        ++ "%c" ++ optional_toString extraInfo)%string
      :: logStyles.
Proof.
  exists (rightPad name 25),
         (rightPad (Number_toString finiteToString timeMs ++ "ms") 9),
         (rightPad (Array_toString (shape result)) 14).
  repeat split; try apply rightPad_padded.
  unfold logKernelProfile, logRecord.
  now rewrite describeInputs_concat.
Qed.

End LoggerFacts.

(** The record for an output of shape [3,4] with one input [x] of the
    same shape and one scalar input [s]; the timing is rendered by a
    stand-in for the engine. *)
Example logKernelProfile_sample :
  let t := mkTensor 0 int32 [3; 4]%Z 2 12 [] in
  let s := mkTensor 1 int32 [] 0 1 [] in
  logRecord (fun _ _ _ => "1.234") "add" t (S754_finite false 5 (-2))
            [("x", t); ("s", s)] (Some "")
  = ("%cadd                      " ++ tab ++ "%c1.234ms  " ++ tab
      ++ "%c2D 3,4           " ++ tab ++ "%c12" ++ tab
      ++ "%cx: 2D 3,4 s: 0D  " ++ tab ++ "%c")%string.
Proof. reflexivity. Qed.

(* ================================================================= *)
(** ** Profiler.profileKernel: the value returned *)

Section ProfileKernelFacts.

Context {W : Type}.

Lemma runTimer_app (f : @Thunk W) (pre post : BackendTimer)
  (st : option Outputs * W) :
  runTimer f (pre ++ post) st = runTimer f post (runTimer f pre st).
Proof.
  revert st. induction pre as [|[|g] pre IH]; intros st; simpl; auto.
Qed.

Lemma runTimer_no_work (f : @Thunk W) (steps : BackendTimer)
  (st : option Outputs * W) :
  ~ In RunWork steps -> fst (runTimer f steps st) = fst st.
Proof.
  revert st. induction steps as [|[|g] steps IH]; intros st Hno; simpl.
  - reflexivity.
  - elim Hno. now left.
  - rewrite IH; [reflexivity|]. intros Hin. apply Hno. now right.
Qed.

Lemma last_work (steps : @BackendTimer W) :
  In RunWork steps ->
  exists pre post, steps = pre ++ RunWork :: post /\ ~ In RunWork post.
Proof.
  induction steps as [|s steps IH]; intros Hin; [contradiction|].
  assert (Hdec : In RunWork steps \/ ~ In RunWork steps).
  { clear. induction steps as [|[|g] steps IH].
    - right. intros [].
    - left. now left.
    - destruct IH as [IH|IH]; [left; now right|].
      right. intros [Hd|Hd]; [discriminate|contradiction]. }
  destruct Hdec as [Hyes|Hno].
  - destruct (IH Hyes) as (pre & post & -> & Hpost).
    now exists (s :: pre), post.
  - destruct Hin as [->|Hin]; [|contradiction].
    now exists [], steps.
Qed.

(** C1. When the timer runs the work it is given before it returns,
    [profileKernel] returns the very value that the thunk returned (at the
    last such run), a single tensor or a sequence as the thunk gave it. At
    that moment no background task has taken a step: every output still
    waits for its values and nothing has been checked or logged. *)
Theorem profileKernel_returns_thunk_value
  (backendTimer : BackendTimer) (name : string) (inputs : NamedTensorMap)
  (f : Thunk) (w : W) :
  In RunWork backendTimer ->
  exists pre post,
    backendTimer = pre ++ RunWork :: post /\
    ~ In RunWork post /\
    let before := snd (runTimer f pre (None, w)) in
    let r := fst (f before) in
    let after := snd (runTimer f post (Some r, snd (f before))) in
    profileKernel backendTimer name inputs f w
    = (Return r, after, spawn (asArray r)) /\
    trace (spawn (asArray r)) = [] /\
    Forall (fun t => stage t = AwaitData) (tasks (spawn (asArray r))).
Proof.
  intros Hin.
  destruct (last_work _ Hin) as (pre & post & -> & Hpost).
  exists pre, post. repeat split; auto.
  - unfold profileKernel. rewrite runTimer_app. cbn [runTimer].
    unfold holdResultWrapperFn.
    destruct (runTimer f pre (None, w)) as [r0 w0]. cbn [snd].
    destruct (f w0) as [r w1]. cbn [fst snd].
    pose proof (runTimer_no_work f post (Some r, w1) Hpost) as Hfst.
    destruct (runTimer f post (Some r, w1)) as [r2 w2].
    cbn [fst snd] in *. now subst r2.
  - unfold spawn. cbn [tasks]. apply Forall_forall.
    intros t Ht. apply in_map_iff in Ht. now destruct Ht as (r & <- & _).
Qed.

(** Without a run of the work, [result] is still [undefined] when
    [results.forEach] reads it, and the call throws. *)
Lemma profileKernel_without_work
  (backendTimer : BackendTimer) (name : string) (inputs : NamedTensorMap)
  (f : Thunk) (w : W) :
  ~ In RunWork backendTimer ->
  fst (fst (profileKernel backendTimer name inputs f w))
  = Throw exn_TypeError.
Proof.
  intros Hno. unfold profileKernel.
  pose proof (runTimer_no_work f backendTimer (None, w) Hno) as Hfst.
  destruct (runTimer f backendTimer (None, w)) as [r w']. cbn [fst] in Hfst.
  now subst r.
Qed.

End ProfileKernelFacts.

(* ================================================================= *)
(** ** Profiler.profileKernel: the background work *)

Section BackgroundFacts.

Variable finiteToString : bool -> positive -> Z -> string.
Variable name : string.
Variable inputs : NamedTensorMap.

Lemma stage_of_setStage_same (ts : list Task) (i : nat) (s : Stage) (t : Task) :
  nth_error ts i = Some t -> stage_of (setStage i s ts) i = Some s.
Proof.
  revert i. induction ts as [|t0 ts IH]; intros [|i] H; simpl in *;
    try discriminate; [reflexivity|].
  now apply IH.
Qed.

Lemma stage_of_setStage_other (ts : list Task) (i j : nat) (s : Stage) :
  i <> j -> stage_of (setStage i s ts) j = stage_of ts j.
Proof.
  revert i j. induction ts as [|t0 ts IH]; intros [|i] [|j] H; simpl;
    try reflexivity; [now elim H|].
  apply (IH i j). congruence.
Qed.

Lemma stage_of_nth (ts : list Task) (i : nat) (r : Tensor) (s : Stage) :
  nth_error ts i = Some (mkTask r s) -> stage_of ts i = Some s.
Proof. unfold stage_of. now intros ->. Qed.

(** Task [j] stood at a stage ([Hold]) other than that of the task [i]
    that moves ([Hst]): it is another task, and its stage is kept. *)
Ltac untouched i j Hst Hold :=
  let Hne := fresh "Hne" in
  destruct (Nat.eq_dec i j) as [->|Hne];
  [rewrite Hold in Hst; discriminate
  |rewrite stage_of_setStage_other by exact Hne; eauto].

Lemma split_before_quiet (tr evs pre post : list Event) (e : Event) :
  Forall notLogged evs -> ~ notLogged e ->
  tr ++ evs = pre ++ e :: post ->
  exists post', tr = pre ++ e :: post'.
Proof.
  intros Hq He Heq.
  apply app_eq_app in Heq.
  destruct Heq as (l & [[-> Hl]|[-> Hl]]).
  - destruct l as [|e' l].
    + simpl in Hl. subst evs. inversion Hq; contradiction.
    + injection Hl as <- _. now exists l.
  - subst evs. apply Forall_app in Hq. destruct Hq as [_ Hq].
    inversion Hq; contradiction.
Qed.

Lemma split_before_last (tr pre post : list Event) (e e' : Event) :
  tr ++ [e'] = pre ++ e :: post ->
  (exists post', tr = pre ++ e :: post') \/ (pre = tr /\ e = e').
Proof.
  intros Heq.
  apply app_eq_app in Heq.
  destruct Heq as (l & [[-> Hl]|[-> Hl]]).
  - destruct l as [|e0 l].
    + right. simpl in Hl. injection Hl as <- _.
      now rewrite app_nil_r.
    + left. injection Hl as <- _. now exists l.
  - destruct l as [|e0 l].
    + right. simpl in Hl. injection Hl as <- _.
      now rewrite app_nil_r.
    + exfalso. injection Hl as _ Hl. now destruct l.
Qed.

Lemma order_quiet (tr evs : list Event) :
  LogAfterCheck tr -> Forall notLogged evs -> LogAfterCheck (tr ++ evs).
Proof.
  intros Hord Hq pre i args post Heq.
  destruct (split_before_quiet tr evs pre post (EvLogged i args) Hq
              (fun H => H) Heq) as [post' ->].
  now apply (Hord pre i args post').
Qed.

Lemma in_quiet (tr evs : list Event) (i : nat) (args : list string) :
  Forall notLogged evs ->
  In (EvLogged i args) (tr ++ evs) -> In (EvLogged i args) tr.
Proof.
  intros Hq Hin. apply in_app_or in Hin. destruct Hin as [Hin|Hin]; auto.
  rewrite Forall_forall in Hq. now destruct (Hq _ Hin).
Qed.

Lemma spawn_consistent (results : list Tensor) : Consistent (spawn results).
Proof.
  constructor; cbn [spawn trace tasks timing].
  - intros pre i args post Heq. now destruct pre.
  - intros i Hst. unfold stage_of in Hst. rewrite nth_error_map in Hst.
    now destruct (nth_error results i).
  - intros i e [].
  - intros i args [].
  - intros _ i args [].
Qed.

Lemma onData_events_quiet (lines : list string) (i : nat) (c : completion unit) :
  Forall notLogged
    (EvMaterialized i :: map EvConsoleError lines ++ [EvChecked i c]).
Proof.
  constructor; [exact I|]. apply Forall_app. split.
  - apply Forall_forall. intros e He. apply in_map_iff in He.
    now destruct He as (l & <- & _).
  - now repeat constructor.
Qed.

Lemma onData_consistent (b : Background) (i : nat) (r : Tensor) :
  Consistent b ->
  nth_error (tasks b) i = Some (mkTask r AwaitData) ->
  Consistent (onData finiteToString name i r b).
Proof.
  intros [Hord Hready Hfailed Hlogged Htiming] Hnth.
  pose proof (stage_of_nth _ _ _ _ Hnth) as Hst.
  unfold onData.
  destruct (checkComputationForErrors finiteToString (dtype r) (values r) name)
    as [lines c].
  pose proof (onData_events_quiet lines i c) as Hq.
  assert (Hfail : forall j e s,
    In (EvChecked j (Throw e))
       (trace b ++ EvMaterialized i :: map EvConsoleError lines
                ++ [EvChecked i c]) ->
    (j = i -> c = Throw e -> s = Abandoned) ->
    (j = i -> exists e', c = Throw e') ->
    stage_of (setStage i s (tasks b)) j = Some Abandoned).
  { intros j e s Hin Hs Hc.
    apply in_app_or in Hin. destruct Hin as [Hin|Hin].
    - untouched i j Hst (Hfailed _ _ Hin).
    - destruct Hin as [Hin|Hin]; [discriminate|].
      apply in_app_or in Hin. destruct Hin as [Hin|Hin].
      + apply in_map_iff in Hin. now destruct Hin as (l & Hl & _).
      + destruct Hin as [Hin|[]]. injection Hin as <- ->.
        rewrite (stage_of_setStage_same _ _ _ _ Hnth).
        now rewrite (Hs eq_refl eq_refl). }
  assert (Hlog : forall j args s,
    In (EvLogged j args)
       (trace b ++ EvMaterialized i :: map EvConsoleError lines
                ++ [EvChecked i c]) ->
    stage_of (setStage i s (tasks b)) j = Some Logged).
  { intros j args s Hin. apply (in_quiet _ _ _ _ Hq) in Hin.
    untouched i j Hst (Hlogged _ _ Hin). }
  destruct c as [[]|e0]; constructor; cbn [trace tasks timing].
  - now apply order_quiet.
  - intros j Hj. destruct (Nat.eq_dec i j) as [->|Hne].
    + split; apply in_or_app; right; [now left|].
      right. apply in_or_app. right. now left.
    + rewrite stage_of_setStage_other in Hj by exact Hne.
      destruct (Hready _ Hj) as [H1 H2].
      split; apply in_or_app; now left.
  - intros j e Hin. apply (Hfail j e AwaitTimer Hin); [discriminate|].
    intros ->. exfalso.
    apply in_app_or in Hin. destruct Hin as [Hin|Hin].
    + rewrite (Hfailed _ _ Hin) in Hst. discriminate.
    + destruct Hin as [Hin|Hin]; [discriminate|].
      apply in_app_or in Hin. destruct Hin as [Hin|Hin].
      * apply in_map_iff in Hin. now destruct Hin as (l & Hl & _).
      * now destruct Hin as [Hin|[]].
  - intros j args Hin. now apply (Hlog j args AwaitTimer).
  - intros Hnone j args Hin. apply (in_quiet _ _ _ _ Hq) in Hin.
    now apply (Htiming Hnone j args).
  - now apply order_quiet.
  - intros j Hj. destruct (Nat.eq_dec i j) as [->|Hne].
    + rewrite (stage_of_setStage_same _ _ _ _ Hnth) in Hj. discriminate.
    + rewrite stage_of_setStage_other in Hj by exact Hne.
      destruct (Hready _ Hj) as [H1 H2].
      split; apply in_or_app; now left.
  - intros j e Hin. apply (Hfail j e Abandoned Hin); [reflexivity|].
    intros _. now exists e0.
  - intros j args Hin. now apply (Hlog j args Abandoned).
  - intros Hnone j args Hin. apply (in_quiet _ _ _ _ Hq) in Hin.
    now apply (Htiming Hnone j args).
Qed.

Lemma onTiming_consistent (b : Background) (i : nat) (r : Tensor)
  (t : BackendTimingInfo) :
  Consistent b ->
  nth_error (tasks b) i = Some (mkTask r AwaitTimer) ->
  timing b = Some t ->
  Consistent (onTiming finiteToString name inputs i r t b).
Proof.
  intros [Hord Hready Hfailed Hlogged Htiming] Hnth Ht.
  pose proof (stage_of_nth _ _ _ _ Hnth) as Hst.
  unfold onTiming. constructor; cbn [trace tasks timing].
  - intros pre j args post Heq.
    apply split_before_last in Heq. destruct Heq as [[post' Heq]|[-> Heq]].
    + now apply (Hord pre j args post').
    + injection Heq as -> _. now apply Hready.
  - intros j Hj. destruct (Nat.eq_dec i j) as [->|Hne].
    + rewrite (stage_of_setStage_same _ _ _ _ Hnth) in Hj. discriminate.
    + rewrite stage_of_setStage_other in Hj by exact Hne.
      destruct (Hready _ Hj) as [H1 H2].
      split; apply in_or_app; now left.
  - intros j e Hin. apply in_app_or in Hin.
    destruct Hin as [Hin|[Hin|[]]]; [|discriminate].
    untouched i j Hst (Hfailed _ _ Hin).
  - intros j args Hin. apply in_app_or in Hin.
    destruct Hin as [Hin|[Hin|[]]].
    + untouched i j Hst (Hlogged _ _ Hin).
    + injection Hin as <- _.
      now rewrite (stage_of_setStage_same _ _ _ _ Hnth).
  - intros Hnone. rewrite Hnone in Ht. discriminate.
Qed.

Lemma setStage_abandon_consistent (b : Background) (i : nat) (r : Tensor) :
  Consistent b ->
  nth_error (tasks b) i = Some (mkTask r AwaitData) ->
  Consistent {| timing := timing b;
                tasks := setStage i Abandoned (tasks b);
                trace := trace b |}.
Proof.
  intros [Hord Hready Hfailed Hlogged Htiming] Hnth.
  pose proof (stage_of_nth _ _ _ _ Hnth) as Hst.
  constructor; cbn [trace tasks timing]; auto.
  - intros j Hj. destruct (Nat.eq_dec i j) as [->|Hne].
    + rewrite (stage_of_setStage_same _ _ _ _ Hnth) in Hj. discriminate.
    + rewrite stage_of_setStage_other in Hj by exact Hne. auto.
  - intros j e Hin. destruct (Nat.eq_dec i j) as [->|Hne].
    + now rewrite (stage_of_setStage_same _ _ _ _ Hnth).
    + rewrite stage_of_setStage_other by exact Hne. eauto.
  - intros j args Hin. untouched i j Hst (Hlogged _ _ Hin).
Qed.

Lemma step_consistent (a : Action) (b b' : Background) :
  Consistent b ->
  step finiteToString name inputs a b = Some b' ->
  Consistent b'.
Proof.
  intros Hc Hstep. destruct a as [t|i|i|i]; cbn [step] in Hstep.
  - destruct (timing b) eqn:Ht; [discriminate|].
    injection Hstep as <-. destruct Hc as [Hord Hready Hfailed Hlogged Htiming].
    constructor; cbn [trace tasks timing]; auto; discriminate.
  - destruct (nth_error (tasks b) i) as [[r [| | |]]|] eqn:Hnth;
      try discriminate.
    injection Hstep as <-. now apply onData_consistent.
  - destruct (nth_error (tasks b) i) as [[r [| | |]]|] eqn:Hnth;
      try discriminate.
    injection Hstep as <-. now apply (setStage_abandon_consistent b i r).
  - destruct (nth_error (tasks b) i) as [[r [| | |]]|] eqn:Hnth;
      try discriminate.
    destruct (timing b) as [t|] eqn:Ht; [|discriminate].
    injection Hstep as <-. now apply onTiming_consistent.
Qed.

Lemma run_consistent (schedule : list Action) (b b' : Background) :
  Consistent b ->
  run finiteToString name inputs schedule b = Some b' ->
  Consistent b'.
Proof.
  revert b. induction schedule as [|a rest IH]; intros b Hc Hrun;
    cbn [run] in Hrun.
  - now injection Hrun as <-.
  - destruct (step finiteToString name inputs a b) as [b1|] eqn:Hstep;
      [|discriminate].
    apply (IH b1); [|exact Hrun]. now apply (step_consistent a b).
Qed.

Lemma run_timing_pending (schedule : list Action) (b b' : Background) :
  (forall t, ~ In (ResolveTimer t) schedule) ->
  timing b = None ->
  run finiteToString name inputs schedule b = Some b' ->
  timing b' = None.
Proof.
  revert b. induction schedule as [|a rest IH]; intros b Hno Hb Hrun;
    cbn [run] in Hrun.
  - now injection Hrun as <-.
  - destruct (step finiteToString name inputs a b) as [b1|] eqn:Hstep;
      [|discriminate].
    apply (IH b1); [| |exact Hrun].
    + intros t Hin. apply (Hno t). now right.
    + destruct a as [t|i|i|i]; cbn [step] in Hstep.
      * elim (Hno t). now left.
      * destruct (nth_error (tasks b) i) as [[r [| | |]]|];
          try discriminate.
        injection Hstep as <-. unfold onData.
        destruct (checkComputationForErrors finiteToString (dtype r)
                    (values r) name) as [lines [[]|e]]; exact Hb.
      * destruct (nth_error (tasks b) i) as [[r [| | |]]|];
          try discriminate.
        injection Hstep as <-. exact Hb.
      * destruct (nth_error (tasks b) i) as [[r [| | |]]|];
          try discriminate.
        rewrite Hb in Hstep. discriminate.
Qed.

(** C6. Whatever the order in which the host settles the promises of one
    [profileKernel] call: a record is logged for an output only after
    that output's values were materialized and its check was run (and
    returned); an output whose check threw has no record logged; and
    while the timer's promise stays unsettled, nothing is logged. *)
Theorem log_follows_materialization_and_check
  {W : Type} (backendTimer : @BackendTimer W) (f : Thunk) (w w' : W)
  (c : completion Outputs) (b0 b : Background) (schedule : list Action) :
  profileKernel backendTimer name inputs f w = (c, w', b0) ->
  run finiteToString name inputs schedule b0 = Some b ->
  (forall pre i args post,
      trace b = pre ++ EvLogged i args :: post ->
      In (EvMaterialized i) pre /\ In (EvChecked i (Return tt)) pre) /\
  (forall i e, In (EvChecked i (Throw e)) (trace b) ->
      forall args, ~ In (EvLogged i args) (trace b)) /\
  ((forall t, ~ In (ResolveTimer t) schedule) ->
      forall i args, ~ In (EvLogged i args) (trace b)).
Proof.
  intros Hcall Hrun.
  assert (Hb0 : exists results, b0 = spawn results).
  { unfold profileKernel in Hcall.
    destruct (runTimer f backendTimer (None, w)) as [[r|] w1];
      injection Hcall as _ _ <-; eauto. }
  destruct Hb0 as [results ->].
  pose proof (run_consistent schedule _ _ (spawn_consistent results) Hrun)
    as [Hord Hready Hfailed Hlogged Htiming].
  split; [exact Hord|split].
  - intros i e Hin args Hlog.
    specialize (Hlogged i args Hlog). rewrite (Hfailed _ _ Hin) in Hlogged.
    discriminate.
  - intros Hno. apply Htiming.
    now apply (run_timing_pending schedule (spawn results) b).
Qed.

End BackgroundFacts.

(* ================================================================= *)
(** ** The benchmark helper: one trial *)

Section TrialFacts.

Context {W : Type}.
Variable doRep : nat -> W -> Outputs * W.
Variable endTrial : option (W -> W).
Variable reps : nat.

Lemma lastOf_cons {A : Type} (x : A) (l : list A) :
  lastOf (x :: l) = match lastOf l with
                    | Some y => Some y
                    | None => Some x
                    end.
Proof.
  revert x. induction l as [|y l IH]; intros x; [reflexivity|].
  change (lastOf (x :: y :: l)) with (lastOf (y :: l)).
  rewrite (IH y). now destruct (lastOf l).
Qed.

Lemma lastOf_none {A : Type} (l : list A) : lastOf l = None <-> l = [].
Proof.
  split; [|now intros ->].
  destruct l as [|x l]; [reflexivity|].
  rewrite lastOf_cons. now destruct (lastOf l).
Qed.

Lemma length_repResults (k r : nat) (w : W) :
  List.length (repResults doRep k r w) = k.
Proof.
  revert r w. induction k as [|k IH]; intros r w; simpl; [reflexivity|].
  destruct (doRep r w) as [res w']. simpl. now rewrite IH.
Qed.

Lemma repLoop_spec (k r : nat) (result : option Outputs) (h : Harness) :
  repLoop doRep k r result h
  = (match lastOf (repResults doRep k r (world h)) with
     | Some x => Some x
     | None => result
     end,
     {| world := repWorld doRep k r (world h);
        toDispose := toDispose h
                     ++ flat_map asArray (repResults doRep k r (world h));
        times := times h;
        log := log h ++ repCalls r (repResults doRep k r (world h)) |}).
Proof.
  revert r result h. induction k as [|k IH]; intros r result h.
  - simpl. rewrite !app_nil_r. now destruct h.
  - cbn [repLoop repResults repWorld].
    destruct (doRep r (world h)) as [res w'].
    rewrite IH. cbn [world toDispose times log].
    rewrite lastOf_cons. cbn [flat_map repCalls].
    rewrite <- !app_assoc. cbn [app].
    now destruct (lastOf (repResults doRep k (S r) w')).
Qed.

(** What [Array.isArray(result) ? result : [result]] holds. *)
Lemma asArray_tensorsOf (result : Outputs) :
  asArray result = tensorsOf result.
Proof. now destruct result. Qed.

Lemma flat_map_asArray (results : list Outputs) :
  flat_map asArray results = flat_map tensorsOf results.
Proof. apply flat_map_ext. exact asArray_tensorsOf. Qed.

Lemma producedIn_repCalls (r : nat) (results : list Outputs) :
  producedIn (repCalls r results) = flat_map tensorsOf results.
Proof.
  revert r. induction results as [|res rest IH]; intros r;
    [reflexivity|].
  cbn [repCalls flat_map]. unfold producedIn in *. cbn [flat_map].
  now rewrite IH.
Qed.

Lemma disposedIn_repCalls (r : nat) (results : list Outputs) :
  disposedIn (repCalls r results) = [].
Proof.
  revert r. induction results as [|res rest IH]; intros r; simpl;
    [reflexivity|].
  apply IH.
Qed.

Lemma readingsIn_repCalls (r : nat) (results : list Outputs) :
  readingsIn (repCalls r results) = [].
Proof.
  revert r. induction results as [|res rest IH]; intros r; simpl;
    [reflexivity|].
  apply IH.
Qed.

Lemma repsIn_repCalls (r : nat) (results : list Outputs) :
  repsIn (repCalls r results) = List.length results.
Proof.
  revert r. induction results as [|res rest IH]; intros r;
    [reflexivity|].
  unfold repsIn in *. simpl. f_equal. apply IH.
Qed.


(** C9. Without a hook the end of a trial needs a last result that is a
    tensor or a sequence with a first element: the trial throws exactly
    when there is no hook and either no repetition ran or the last one
    returned an empty sequence, and it returns in every other case. *)
Theorem completion_proxy_partial (h : Harness) :
  let final := lastOf (repResults doRep reps 0 (world h)) in
  (fst (trial doRep endTrial reps h) = Throw exn_TypeError <->
   endTrial = None /\ (reps = 0 \/ final = Some (Many []))) /\
  (fst (trial doRep endTrial reps h) = Return tt <->
   endTrial <> None \/
   (exists t, final = Some (One t)) \/
   (exists t ts, final = Some (Many (t :: ts)))).
Proof.
  cbv zeta.
  assert (Hzero : reps = 0 <-> lastOf (repResults doRep reps 0 (world h)) = None).
  { rewrite lastOf_none. split.
    - now intros ->.
    - intros Hnil. apply (f_equal (@List.length _)) in Hnil.
      now rewrite length_repResults in Hnil. }
  unfold trial. rewrite repLoop_spec.
  destruct endTrial as [hook|]; cbn [fst].
  - split; split.
    + discriminate.
    + now intros [? _].
    + intros _. left. discriminate.
    + reflexivity.
  - destruct (lastOf (repResults doRep reps 0 (world h))) as [[t|[|t ts]]|];
      cbn [completionProxy fst]; split; split;
      try discriminate; try reflexivity.
    + intros [_ [Hr|Hr]]; [|discriminate].
      apply Hzero in Hr. discriminate.
    + intros _. right. left. now exists t.
    + intros _. split; [reflexivity|now right].
    + intros [Hn|[[t Ht]|[t [ts Ht]]]]; [now elim Hn|discriminate..].
    + intros [_ [Hr|Hr]]; [|discriminate].
      apply Hzero in Hr. discriminate.
    + intros _. right. right. now exists t, ts.
    + intros _. split; [reflexivity|]. left. now apply Hzero.
    + intros [Hn|[[t Ht]|[t [ts Ht]]]]; [now elim Hn|discriminate..].
Qed.

(** What a trial adds to the shared variables, whether it returns or
    throws. *)
Lemma trial_effect (h h' : Harness) (c : completion unit) :
  trial doRep endTrial reps h = (c, h') ->
  exists added,
    log h' = log h ++ added /\
    times h' = times h /\
    toDispose h' = toDispose h ++ producedIn added /\
    readingsIn added = [] /\
    disposedIn added = [] /\
    repsIn added = reps.
Proof.
  unfold trial. rewrite repLoop_spec, flat_map_asArray. intros Htrial.
  set (results := repResults doRep reps 0 (world h)) in *.
  assert (Hcalls : forall tail,
    readingsIn tail = [] -> disposedIn tail = [] -> producedIn tail = [] ->
    repsIn tail = 0 ->
    producedIn (repCalls 0 results ++ tail) = flat_map tensorsOf results /\
    readingsIn (repCalls 0 results ++ tail) = [] /\
    disposedIn (repCalls 0 results ++ tail) = [] /\
    repsIn (repCalls 0 results ++ tail) = reps).
  { intros tail H1 H2 H3 H4.
    unfold producedIn, readingsIn, disposedIn, repsIn in *.
    rewrite !flat_map_app, filter_app, length_app.
    fold (producedIn (repCalls 0 results)).
    fold (readingsIn (repCalls 0 results)).
    fold (disposedIn (repCalls 0 results)).
    fold (repsIn (repCalls 0 results)).
    rewrite producedIn_repCalls, readingsIn_repCalls, disposedIn_repCalls,
      repsIn_repCalls, H1, H2, H3, H4, !app_nil_r.
    unfold results. rewrite length_repResults. auto. }
  destruct endTrial as [hook|].
  - injection Htrial as _ <-. cbn [log times toDispose].
    exists (repCalls 0 results ++ [BEndTrial]).
    destruct (Hcalls [BEndTrial]) as (H1 & H2 & H3 & H4); try reflexivity.
    rewrite H1, app_assoc. repeat split; auto.
  - destruct (completionProxy _) as [t|];
      injection Htrial as _ <-; cbn [log times toDispose].
    + exists (repCalls 0 results ++ [BAwaitData t]).
      destruct (Hcalls [BAwaitData t]) as (H1 & H2 & H3 & H4);
        try reflexivity.
      rewrite H1, app_assoc. repeat split; auto.
    + exists (repCalls 0 results).
      destruct (Hcalls []) as (H1 & H2 & H3 & H4); try reflexivity.
      rewrite app_nil_r in H1, H2, H3, H4. rewrite H1.
      repeat split; auto.
Qed.

Lemma linesIn_repCalls (r : nat) (results : list Outputs) :
  linesIn (repCalls r results) = [].
Proof.
  revert r. induction results as [|res rest IH]; intros r; simpl;
    [reflexivity|].
  apply IH.
Qed.

(** A trial writes nothing. *)
Lemma trial_lines (h h' : Harness) (c : completion unit) :
  trial doRep endTrial reps h = (c, h') ->
  linesIn (log h') = linesIn (log h).
Proof.
  unfold trial. rewrite repLoop_spec. intros Htrial.
  assert (Hcalls : forall tail, linesIn tail = [] ->
    linesIn ((log h ++ repCalls 0 (repResults doRep reps 0 (world h)))
             ++ tail) = linesIn (log h)).
  { intros tail Htail. unfold linesIn in *.
    rewrite !flat_map_app, Htail.
    fold (linesIn (repCalls 0 (repResults doRep reps 0 (world h)))).
    now rewrite linesIn_repCalls, !app_nil_r. }
  destruct endTrial as [hook|].
  - injection Htrial as _ <-. now apply Hcalls.
  - destruct (completionProxy _) as [t|]; injection Htrial as _ <-;
      cbn [log].
    + now apply Hcalls.
    + rewrite <- (app_nil_r (log h ++ _)). now apply Hcalls.
Qed.

End TrialFacts.

(* ================================================================= *)
(** ** The benchmark helper: what a log shows *)

Lemma readingsIn_app (a b : list BenchEvent) :
  readingsIn (a ++ b) = readingsIn a ++ readingsIn b.
Proof. apply flat_map_app. Qed.

Lemma producedIn_app (a b : list BenchEvent) :
  producedIn (a ++ b) = producedIn a ++ producedIn b.
Proof. apply flat_map_app. Qed.

Lemma disposedIn_app (a b : list BenchEvent) :
  disposedIn (a ++ b) = disposedIn a ++ disposedIn b.
Proof. apply flat_map_app. Qed.

Lemma repsIn_app (a b : list BenchEvent) :
  repsIn (a ++ b) = repsIn a + repsIn b.
Proof. unfold repsIn. now rewrite filter_app, length_app. Qed.

Lemma readingsIn_disposals (ts : list Tensor) :
  readingsIn (map BDispose ts) = [].
Proof. induction ts as [|t ts IH]; simpl; auto. Qed.

Lemma producedIn_disposals (ts : list Tensor) :
  producedIn (map BDispose ts) = [].
Proof. induction ts as [|t ts IH]; simpl; auto. Qed.

Lemma disposedIn_disposals (ts : list Tensor) :
  disposedIn (map BDispose ts) = ts.
Proof. induction ts as [|t ts IH]; simpl; [reflexivity|]. now f_equal. Qed.

Lemma repsIn_disposals (ts : list Tensor) : repsIn (map BDispose ts) = 0.
Proof. induction ts as [|t ts IH]; simpl; auto. Qed.

Create Rewrite HintDb logs.

#[local] Hint Rewrite readingsIn_app producedIn_app disposedIn_app repsIn_app
  readingsIn_disposals producedIn_disposals disposedIn_disposals
  repsIn_disposals : logs.

(* ================================================================= *)
(** ** The benchmark helper: the timed loop and [time] *)

Section TimeFacts.

Context {W : Type}.
Variable finiteToString : bool -> positive -> Z -> string.
Variable now : W -> number * W.
Variable doRep : nat -> W -> Outputs * W.
Variable endTrial : option (W -> W).
Variable reps : nat.

Lemma timedLoop_effect (d : bool) (k : nat) (h h' : Harness) :
  timedLoop now doRep endTrial d reps k h = (Return tt, h') ->
  exists added,
    log h' = log h ++ added /\
    times h' = times h ++ durations (readingsIn added) /\
    List.length (readingsIn added) = 2 * k /\
    repsIn added = k * reps /\
    (d = false ->
     disposedIn added = [] /\
     toDispose h' = toDispose h ++ producedIn added).
Proof.
  revert h. induction k as [|k IH]; intros h Hloop; cbn [timedLoop] in Hloop.
  - injection Hloop as <-. exists []. rewrite !app_nil_r. simpl.
    repeat split; auto.
  - destruct (now (world h)) as [start w1].
    destruct (trial doRep endTrial reps _) as [[[]|e] h2] eqn:Htrial;
      [|discriminate].
    apply trial_effect in Htrial. cbn [log times toDispose] in Htrial.
    destruct Htrial as (ta & Hlog & Htimes & Hdisp & Hread & Hnodisp & Hreps).
    destruct (now (world h2)) as [stop w3].
    apply IH in Hloop.
    destruct Hloop as (ra & Rlog & Rtimes & Rread & Rreps & Rkeep).
    destruct d.
    + cbn [dispose log times toDispose] in *.
      exists ([BNow start] ++ ta ++ [BNow stop]
              ++ map BDispose (toDispose h2) ++ ra).
      autorewrite with logs. rewrite Hread, Hreps.
      cbn [readingsIn flat_map app durations repsIn filter List.length].
      rewrite Rlog, Rtimes, Hlog, Htimes, Rread, Rreps.
      rewrite <- !app_assoc. cbn [app].
      repeat split; try lia; try discriminate.
    + cbn [log times toDispose] in *.
      destruct (Rkeep eq_refl) as [Rnodisp Rdisp].
      exists ([BNow start] ++ ta ++ [BNow stop] ++ ra).
      autorewrite with logs. rewrite Hread, Hreps, Hnodisp, Rnodisp.
      cbn [readingsIn disposedIn producedIn flat_map app durations repsIn
           filter List.length].
      rewrite Rlog, Rtimes, Rdisp, Hlog, Htimes, Hdisp.
      rewrite Rread, Rreps.
      rewrite <- !app_assoc. cbn [app].
      repeat split; try lia.
Qed.

(** The timed loop writes nothing. *)
Lemma timedLoop_lines (d : bool) (k : nat) (h h' : Harness)
  (c : completion unit) :
  timedLoop now doRep endTrial d reps k h = (c, h') ->
  linesIn (log h') = linesIn (log h).
Proof.
  revert h. induction k as [|k IH]; intros h Hloop; cbn [timedLoop] in Hloop.
  - now injection Hloop as _ <-.
  - destruct (now (world h)) as [start w1].
    destruct (trial doRep endTrial reps _) as [[[]|e] h2] eqn:Htrial.
    + apply trial_lines in Htrial. cbn [log] in Htrial.
      destruct (now (world h2)) as [stop w3].
      apply IH in Hloop. rewrite Hloop.
      assert (Hstop : linesIn (log h2 ++ [BNow stop]) = linesIn (log h)).
      { unfold linesIn in *. rewrite flat_map_app, Htrial, flat_map_app.
        cbn. now rewrite !app_nil_r. }
      destruct d; cbn [dispose log]; [|exact Hstop].
      unfold linesIn in *. rewrite flat_map_app, Hstop.
      clear. induction (toDispose h2) as [|t ts IHt]; cbn;
        [now rewrite app_nil_r|exact IHt].
    + injection Hloop as _ <-.
      apply trial_lines in Htrial. cbn [log] in Htrial. rewrite Htrial.
      unfold linesIn. rewrite flat_map_app. cbn. now rewrite app_nil_r.
Qed.

Lemma timedLoop_add (d : bool) (k1 k2 : nat) (h : Harness) :
  timedLoop now doRep endTrial d reps (k1 + k2) h
  = match timedLoop now doRep endTrial d reps k1 h with
    | (Return _, h1) => timedLoop now doRep endTrial d reps k2 h1
    | (Throw e, h1) => (Throw e, h1)
    end.
Proof.
  revert h. induction k1 as [|k1 IH]; intros h; [reflexivity|].
  cbn [Nat.add timedLoop].
  destruct (now (world h)) as [start w1].
  destruct (trial doRep endTrial reps _) as [[[]|e] h2]; [|reflexivity].
  destruct (now (world h2)) as [stop w3]. apply IH.
Qed.

Lemma durations_length (k : nat) (l : list number) :
  List.length l = 2 * k -> List.length (durations l) = k.
Proof.
  revert l. induction k as [|k IH]; intros l Hl.
  - now destruct l.
  - destruct l as [|a [|b l]]; simpl in Hl; try lia.
    cbn [durations List.length]. f_equal. apply IH. lia.
Qed.

(** The states that a normal run of [time] goes through. *)
Lemma time_phases (d : bool) (trials : nat) (w : W)
  (res : BenchmarkResult) (h : Harness) :
  time finiteToString now doRep endTrial d trials reps w = (Return res, h) ->
  exists hw h2,
    trial doRep endTrial reps
      {| world := w; toDispose := []; times := []; log := [] |}
    = (Return tt, hw) /\
    timedLoop now doRep endTrial d reps trials (dispose hw)
    = (Return tt, h2) /\
    res = {| mean := num_div (reduce_sum (times h2)) (num_of_nat trials);
             min := Math_min (times h2) |} /\
    world h = world h2 /\
    toDispose h = toDispose h2 /\
    times h = times h2 /\
    log h = log h2 ++ report finiteToString reps (mean res) (min res).
Proof.
  unfold time. intros Htime.
  destruct (trial doRep endTrial reps _) as [[[]|e] hw] eqn:Hw;
    [|discriminate].
  destruct (timedLoop now doRep endTrial d reps trials (dispose hw))
    as [[[]|e] h2] eqn:H2; [|discriminate].
  injection Htime as <- <-. exists hw, h2. cbn. repeat split; auto.
Qed.

(** C10. With [disposeAfterEachTrial] false, a run of [time] that returns
    disposes the outputs of the warm-up trial and nothing else: no
    disposal follows, [toDispose] after any number of timed trials is a
    prefix of what it is after more of them, and at the end it holds
    the tensors of every result of every timed repetition, in the order
    produced: each tensor that a timed repetition returned, alone or in
    a sequence, is in [toDispose] when [time] returns. *)
Theorem outputs_kept_without_dispose (trials : nat) (w : W)
  (res : BenchmarkResult) (h : Harness) :
  time finiteToString now doRep endTrial false trials reps w = (Return res, h) ->
  exists hw timed,
    trial doRep endTrial reps
      {| world := w; toDispose := []; times := []; log := [] |}
    = (Return tt, hw) /\
    log h = (log hw ++ map BDispose (toDispose hw)) ++ timed /\
    disposedIn (log hw ++ map BDispose (toDispose hw))
    = producedIn (log hw ++ map BDispose (toDispose hw)) /\
    disposedIn timed = [] /\
    toDispose h = producedIn timed /\
    (producedIn timed <> [] -> toDispose h <> []) /\
    (forall r t, In (BRep r (One t)) timed -> In t (toDispose h)) /\
    (forall r ts t, In (BRep r (Many ts)) timed -> In t ts ->
                    In t (toDispose h)) /\
    (forall k1 k2 h1,
        trials = k1 + k2 ->
        timedLoop now doRep endTrial false reps k1 (dispose hw)
        = (Return tt, h1) ->
        exists more, toDispose h = toDispose h1 ++ more).
Proof.
  intros Htime.
  destruct (time_phases _ _ _ _ _ Htime)
    as (hw & h2 & Hw & H2 & Hres & _ & Hdisp & _ & Hlog).
  pose proof (trial_effect _ _ _ _ _ _ Hw) as Hte.
  cbn [log times toDispose app] in Hte.
  destruct Hte as (wa & Hwlog & _ & Hwdisp & _ & Hwnodisp & _).
  destruct (timedLoop_effect _ _ _ _ H2) as (ta & Tlog & _ & _ & _ & Tkeep).
  destruct (Tkeep eq_refl) as [Tnodisp Tdisp].
  cbn [dispose log toDispose app] in Tlog, Tdisp.
  set (report := report finiteToString reps (mean res) (min res)) in *.
  assert (Hpt : producedIn (ta ++ report) = producedIn ta).
  { rewrite producedIn_app. cbn. now rewrite app_nil_r. }
  assert (Hdt : disposedIn (ta ++ report) = []).
  { rewrite disposedIn_app, Tnodisp. reflexivity. }
  exists hw, (ta ++ report).
  rewrite Hpt, Hdt, disposedIn_app, producedIn_app, disposedIn_disposals,
    producedIn_disposals, Hdisp, Tdisp.
  rewrite Hwlog, Hwnodisp, Hwdisp in *. rewrite app_nil_r.
  assert (Hheld : forall r result t,
            In (BRep r result) (ta ++ report) -> In t (tensorsOf result) ->
            In t (producedIn ta)).
  { intros r result t Hin Ht. rewrite <- Hpt. unfold producedIn.
    apply in_flat_map. now exists (BRep r result). }
  repeat split; auto.
  - rewrite Hlog, Tlog. now rewrite <- !app_assoc.
  - intros r t Hin. apply (Hheld r (One t) t Hin). now left.
  - intros r ts t Hin Ht. exact (Hheld r (Many ts) t Hin Ht).
  - intros k1 k2 h1 -> H1. rewrite timedLoop_add, H1 in H2.
    destruct (timedLoop_effect _ _ _ _ H2) as (ma & _ & _ & _ & _ & Mkeep).
    destruct (Mkeep eq_refl) as [_ Mdisp].
    exists (producedIn ma). now rewrite <- Tdisp.
Qed.

End TimeFacts.

(* ================================================================= *)
(** ** Numbers: order, [Math.min], and subtraction of finite numbers *)

Lemma num_le_code (x y : number) :
  num_le x y = true <->
  isNaN x = false /\ isNaN y = false /\ code_le (code x) (code y).
Proof.
  unfold num_le, SFleb, code_le.
  destruct x as [s|[|]| |[|] m e]; destruct y as [s'|[|]| |[|] m' e'];
    cbn [SFcompare isNaN code fst snd];
    try (split; [intros H; try discriminate H; repeat split; lia
                |intros (H1 & H2 & H3); try discriminate; try reflexivity;
                 lia]).
  - change (Pos.compare_cont Eq m m') with (m ?= m')%positive.
    destruct (Z.compare_spec e e') as [He|He|He];
      destruct (Pos.compare_spec m m') as [Hm|Hm|Hm];
      cbn [CompOpp];
      (split; [intros H0; try discriminate H0; repeat split; lia
              |intros (H1 & H2 & H3); try reflexivity; lia]).
  - change (Pos.compare_cont Eq m m') with (m ?= m')%positive.
    destruct (Z.compare_spec e e') as [He|He|He];
      destruct (Pos.compare_spec m m') as [Hm|Hm|Hm];
      (split; [intros H0; try discriminate H0; repeat split; lia
              |intros (H1 & H2 & H3); try reflexivity; lia]).
Qed.

Lemma num_lt_code (x y : number) :
  isNaN x = false -> isNaN y = false ->
  num_lt x y = false -> code_le (code y) (code x).
Proof.
  unfold num_lt, SFltb, code_le.
  destruct x as [s|[|]| |[|] m e]; destruct y as [s'|[|]| |[|] m' e'];
    cbn [SFcompare isNaN code fst snd]; intros Hx Hy H;
    try discriminate; try lia.
  - revert H. change (Pos.compare_cont Eq m m') with (m ?= m')%positive.
    destruct (Z.compare_spec e e') as [He|He|He];
      destruct (Pos.compare_spec m m') as [Hm|Hm|Hm];
      cbn [CompOpp]; intros H0; try discriminate H0; lia.
  - revert H. change (Pos.compare_cont Eq m m') with (m ?= m')%positive.
    destruct (Z.compare_spec e e') as [He|He|He];
      destruct (Pos.compare_spec m m') as [Hm|Hm|Hm];
      intros H0; try discriminate H0; lia.
Qed.

Lemma num_lt_le (x y : number) : num_lt x y = true -> num_le x y = true.
Proof.
  unfold num_lt, num_le, SFltb, SFleb.
  now destruct (SFcompare x y) as [[| |]|].
Qed.

Lemma num_le_trans (x y z : number) :
  num_le x y = true -> num_le y z = true -> num_le x z = true.
Proof.
  rewrite !num_le_code. unfold code_le.
  intros (Hx & Hy & Hxy) (_ & Hz & Hyz). repeat split; auto. lia.
Qed.

Lemma num_le_refl (x : number) : isNaN x = false -> num_le x x = true.
Proof.
  intros Hx. apply num_le_code. unfold code_le. repeat split; auto. lia.
Qed.

Lemma Math_min_from_least (xs : list number) (lowest : number) :
  isNaN lowest = false ->
  Forall (fun x => isNaN x = false) xs ->
  let m := Math_min_from lowest xs in
  (m = lowest \/ In m xs) /\
  num_le m lowest = true /\
  Forall (fun x => num_le m x = true) xs.
Proof.
  cbv zeta. intros Hlow Hxs. revert lowest Hlow.
  induction Hxs as [|x rest Hx Hrest IH]; intros lowest Hlow.
  - cbn. repeat split; auto using num_le_refl.
  - cbn [Math_min_from]. rewrite Hx.
    assert (Hstep : forall next,
      next = x \/ next = lowest ->
      num_le next lowest = true -> num_le next x = true ->
      (Math_min_from next rest = lowest \/
       In (Math_min_from next rest) (x :: rest)) /\
      num_le (Math_min_from next rest) lowest = true /\
      Forall (fun y => num_le (Math_min_from next rest) y = true) (x :: rest)).
    { intros next Hnext Hnl Hnx.
      assert (Hn : isNaN next = false) by (destruct Hnext; now subst).
      destruct (IH next Hn) as (Hin & Hle & Hall).
      repeat split.
      - destruct Hin as [Hin|Hin]; [|right; now right].
        rewrite Hin. destruct Hnext as [->| ->]; [right; now left|now left].
      - now apply (num_le_trans _ next).
      - constructor; [now apply (num_le_trans _ next)|exact Hall]. }
    destruct (is_neg_zero x && is_pos_zero lowest) eqn:Hz.
    + apply andb_prop in Hz. destruct Hz as [Hz1 Hz2].
      apply Hstep; [now left| |now apply num_le_refl].
      destruct x as [[|]| | |]; try discriminate.
      now destruct lowest as [[|]| | |].
    + destruct (num_lt x lowest) eqn:Hlt.
      * apply Hstep; [now left|now apply num_lt_le|now apply num_le_refl].
      * apply Hstep; [now right|now apply num_le_refl|].
        apply num_le_code. repeat split; auto.
        now apply num_lt_code.
Qed.

Lemma Math_min_least (xs : list number) :
  xs <> [] ->
  Forall (fun x => isNaN x = false) xs ->
  In (Math_min xs) xs /\ Forall (fun x => num_le (Math_min xs) x = true) xs.
Proof.
  intros Hne Hxs. unfold Math_min.
  destruct (Math_min_from_least xs pos_infinity eq_refl Hxs)
    as ([Hm|Hin] & _ & Hall); cbv zeta in *; split; auto.
  destruct xs as [|x rest]; [now elim Hne|].
  rewrite Hm in *. left.
  inversion Hall as [|? ? Hx _]; subst.
  apply num_le_code in Hx. destruct Hx as (_ & Hx & Hc).
  unfold code_le in Hc.
  destruct x as [s|[|]| |[|] m e]; cbn in *; try discriminate;
    try reflexivity; lia.
Qed.

Lemma shr_1_nonneg (mrs : shr_record) :
  (0 <= shr_m mrs)%Z -> (0 <= shr_m (shr_1 mrs))%Z.
Proof.
  destruct mrs as [[|[p|p|]|p] r s]; cbn; lia.
Qed.

Lemma iter_shr_1_nonneg (p : positive) (mrs : shr_record) :
  (0 <= shr_m mrs)%Z -> (0 <= shr_m (iter_pos shr_1 p mrs))%Z.
Proof.
  revert mrs. induction p as [p IH|p IH|]; intros mrs H; cbn [iter_pos];
    auto using shr_1_nonneg.
Qed.

Lemma shr_fexp_nonneg (m e : Z) (l : location) :
  (0 <= m)%Z -> (0 <= shr_m (fst (shr_fexp prec emax m e l)))%Z.
Proof.
  intros Hm. unfold shr_fexp, shr.
  assert (H0 : (0 <= shr_m (shr_record_of_loc m l))%Z).
  { destruct l as [|[| |]]; exact Hm. }
  destruct (_ - e)%Z as [|p|p]; cbn [fst]; auto using iter_shr_1_nonneg.
Qed.

Lemma binary_round_aux_not_nan (sx : bool) (mx ex : Z) (lx : location) :
  (0 <= mx)%Z -> isNaN (binary_round_aux prec emax sx mx ex lx) = false.
Proof.
  intros Hm. unfold binary_round_aux.
  pose proof (shr_fexp_nonneg mx ex lx Hm) as H1.
  destruct (shr_fexp prec emax mx ex lx) as [mrs' e']. cbn [fst] in H1.
  assert (H2 : (0 <= round_nearest_even (shr_m mrs')
                       (loc_of_shr_record mrs'))%Z).
  { unfold round_nearest_even.
    destruct (loc_of_shr_record mrs') as [|[| |]];
      try destruct (Z.even (shr_m mrs')); lia. }
  pose proof (shr_fexp_nonneg _ e' loc_Exact H2) as H3.
  destruct (shr_fexp prec emax _ e' loc_Exact) as [mrs'' e''].
  cbn [fst] in H3.
  destruct (shr_m mrs'') as [|p|p]; [reflexivity| |lia].
  now destruct (Z.leb e'' (emax - prec)).
Qed.

Lemma binary_normalize_not_nan (m e : Z) (szero : bool) :
  isNaN (binary_normalize prec emax m e szero) = false.
Proof.
  unfold binary_normalize, binary_round.
  destruct m as [|p|p]; [reflexivity| |];
    destruct (shl_align _ _ _) as [mz ez];
    apply binary_round_aux_not_nan; lia.
Qed.

Lemma num_sub_not_nan (a b : number) :
  isFinite a = true -> isFinite b = true -> isNaN (num_sub a b) = false.
Proof.
  unfold num_sub, SFsub.
  destruct a as [[|]| | |sa ma ea]; destruct b as [[|]| | |sb mb eb];
    try discriminate; try reflexivity; intros _ _.
  apply binary_normalize_not_nan.
Qed.

Lemma durations_not_nan (readings : list number) :
  Forall (fun x => isFinite x = true) readings ->
  Forall (fun x => isNaN x = false) (durations readings).
Proof.
  assert (H : forall n (l : list number), List.length l <= n ->
    Forall (fun x => isFinite x = true) l ->
    Forall (fun x => isNaN x = false) (durations l)).
  { induction n as [|n IH]; intros l Hl Hfin.
    - destruct l; [constructor|simpl in Hl; lia].
    - destruct l as [|a [|b l]]; try constructor.
      + inversion Hfin as [|? ? Ha Hfin']; subst.
        inversion Hfin' as [|? ? Hb _]; subst.
        now apply num_sub_not_nan.
      + apply IH; [simpl in Hl; lia|].
        inversion Hfin as [|? ? _ Hfin']; subst.
        now inversion Hfin'. }
  intros Hfin. now apply (H (List.length readings)).
Qed.

(* ================================================================= *)
(** ** The benchmark helper: what is reported *)

(** [reduce] adds the numbers up from 0 in their order. *)
Lemma reduce_sum_sumOf (xs : list number) : reduce_sum xs = sumOf xs.
Proof.
  unfold reduce_sum, sumOf.
  induction xs as [|x xs IH] using rev_ind; [reflexivity|].
  rewrite fold_left_app, rev_unit. cbn [fold_left fold_right].
  now rewrite IH.
Qed.

Section ReportFacts.

Context {W : Type}.
Variable finiteToString : bool -> positive -> Z -> string.
Variable now : W -> number * W.
Variable doRep : nat -> W -> Outputs * W.
Variable endTrial : option (W -> W).
Variable reps : nat.

Lemma readings_of_run (d : bool) (trials : nat) (w : W)
  (res : BenchmarkResult) (h : Harness) :
  time finiteToString now doRep endTrial d trials reps w = (Return res, h) ->
  List.length (readingsIn (log h)) = 2 * trials /\
  times h = durations (readingsIn (log h)).
Proof.
  intros Htime.
  destruct (time_phases _ _ _ _ _ _ _ _ _ _ Htime)
    as (hw & h2 & Hw & H2 & _ & _ & _ & Htimes & Hlog).
  pose proof (trial_effect _ _ _ _ _ _ Hw) as Hte.
  cbn [log times toDispose app] in Hte.
  destruct Hte as (wa & Hwlog & Hwtimes & _ & Hwread & _ & _).
  destruct (timedLoop_effect _ _ _ _ _ _ _ _ H2)
    as (ta & Tlog & Ttimes & Tread & _ & _).
  cbn [dispose log times] in Tlog, Ttimes.
  rewrite Hwtimes in Ttimes. cbn [app] in Ttimes.
  rewrite Hlog, Tlog, Hwlog, !readingsIn_app, Hwread, readingsIn_disposals.
  cbn [app readingsIn flat_map]. rewrite app_nil_r.
  split; [exact Tread|]. now rewrite Htimes.
Qed.

Lemma lines_of_run (d : bool) (trials : nat) (w : W)
  (res : BenchmarkResult) (h : Harness) :
  time finiteToString now doRep endTrial d trials reps w = (Return res, h) ->
  linesIn (log h)
  = linesIn (report finiteToString reps (mean res) (min res)).
Proof.
  intros Htime.
  destruct (time_phases _ _ _ _ _ _ _ _ _ _ Htime)
    as (hw & h2 & Hw & H2 & _ & _ & _ & _ & Hlog).
  apply trial_lines in Hw. cbn [log] in Hw.
  apply timedLoop_lines in H2. cbn [dispose log] in H2.
  rewrite Hlog. unfold linesIn in *. rewrite flat_map_app, H2, flat_map_app, Hw.
  clear. induction (toDispose hw) as [|t ts IHt]; [reflexivity|exact IHt].
Qed.

(** C4, as the code has it. A run of [time] with [trials] at least 1 that
    returns has recorded exactly [trials] times, the differences of the
    clock readings taken in pairs; [mean] is their sum, added up from 0
    in the order recorded, divided by [trials], each operation rounded
    as numbers are; and, the clock readings being finite, [min] is one
    of the times and is less than or equal to each of them. The two
    lines written show these two numbers, and the same divided by
    [reps], with three decimals. *)
Theorem statistics_of_timed_trials (d : bool) (trials : nat) (w : W)
  (res : BenchmarkResult) (h : Harness) :
  time finiteToString now doRep endTrial d trials reps w = (Return res, h) ->
  1 <= trials ->
  Forall (fun x => isFinite x = true) (readingsIn (log h)) ->
  List.length (times h) = trials /\
  times h = durations (readingsIn (log h)) /\
  mean res = num_div (sumOf (times h)) (num_of_nat trials) /\
  In (min res) (times h) /\
  Forall (fun t => num_le (min res) t = true) (times h) /\
  linesIn (log h)
  = [("Mean time: " ++ toFixed3 finiteToString (mean res) ++ " ms -> "
        ++ toFixed3 finiteToString (num_div (mean res) (num_of_nat reps))
        ++ " / rep")%string;
     ("Min time: " ++ toFixed3 finiteToString (min res) ++ " ms -> "
        ++ toFixed3 finiteToString (num_div (min res) (num_of_nat reps))
        ++ " / rep")%string].
Proof.
  intros Htime Htrials Hfin.
  destruct (readings_of_run _ _ _ _ _ Htime) as [Hlen Hdur].
  destruct (time_phases _ _ _ _ _ _ _ _ _ _ Htime)
    as (hw & h2 & _ & _ & Hres & _ & _ & Htimes & _).
  assert (Hcount : List.length (times h) = trials).
  { rewrite Hdur. now apply durations_length. }
  assert (Hmin : min res = Math_min (times h)).
  { subst res. cbn [min]. now rewrite Htimes. }
  assert (Hleast : In (Math_min (times h)) (times h) /\
                   Forall (fun t => num_le (Math_min (times h)) t = true)
                          (times h)).
  { apply Math_min_least.
    - intros Hnil. rewrite Hnil in Hcount. simpl in Hcount. lia.
    - rewrite Hdur. now apply durations_not_nan. }
  rewrite <- Hmin in Hleast. destruct Hleast as [Hin Hall].
  repeat split; auto.
  - subst res. cbn [mean]. rewrite Htimes. f_equal.
    unfold reduce_sum, sumOf. now rewrite fold_left_rev_right.
  - now rewrite (lines_of_run _ _ _ _ _ Htime).
Qed.

End ReportFacts.

(* ================================================================= *)
(** ** Sample runs *)

(** The benchmark of [sampleRep] with three trials of one repetition on
    the readings of [sampleClock] returns. *)
Lemma sample_run_returns :
  exists res h,
    time sampleRender sampleNow sampleRep None false 3 1 sampleStart
    = (Return res, h).
Proof. eexists. eexists. vm_compute. reflexivity. Defined.

(** The same run, in figures: four tensors are made, the first for the
    warm-up; each time is 1.4045, their sum is 4.2135, and the mean is
    1.4044999999999999; the two lines written show a mean below the
    minimum. *)
Example sample_run_statistics :
  let run := time sampleRender sampleNow sampleRep None false 3 1
               sampleStart in
  producedIn (log (snd run))
  = [tensorNo 0; tensorNo 1; tensorNo 2; tensorNo 3] /\
  disposedIn (log (snd run)) = [tensorNo 0] /\
  toDispose (snd run) = [tensorNo 1; tensorNo 2; tensorNo 3] /\
  times (snd run)
  = [dyadic 6325305676641862 (-52); dyadic 6325305676641862 (-52);
     dyadic 6325305676641862 (-52)] /\
  sumOf (times (snd run)) = dyadic 18975917029925584 (-52) /\
  fst run = Return {| mean := dyadic 6325305676641861 (-52);
                      min := dyadic 6325305676641862 (-52) |} /\
  num_le (dyadic 6325305676641862 (-52)) (dyadic 6325305676641861 (-52))
  = false /\
  linesIn (log (snd run))
  = ["Mean time: 1.404 ms -> 1.404 / rep";
     "Min time: 1.405 ms -> 1.405 / rep"]%string.
Proof. vm_compute. repeat split. Qed.

(** C4, as the claim states it, fails: on three trials of a repetition
    that makes a new tensor at each call, with the clock readings of
    [sampleClock], each of the three times is 1.4045 milliseconds; their
    sum is rounded to 4.2135, and that divided by 3 is rounded to
    1.4044999999999999, which is less than each of them. *)
Lemma min_above_mean_counterexample :
  ~ (forall (W : Type) (finiteToString : bool -> positive -> Z -> string)
       (now : W -> number * W)
       (doRep : nat -> W -> Outputs * W) (endTrial : option (W -> W))
       (d : bool) (trials reps : nat) (w : W)
       (res : BenchmarkResult) (h : Harness),
        time finiteToString now doRep endTrial d trials reps w = (Return res, h) ->
        1 <= trials ->
        Forall (fun x => isFinite x = true) (readingsIn (log h)) ->
        List.length (times h) = trials /\
        mean res = num_div (sumOf (times h)) (num_of_nat trials) /\
        In (min res) (times h) /\
        Forall (fun t => num_le (min res) t = true) (times h) /\
        num_le (min res) (mean res) = true).
Proof.
  intros Hclaim.
  destruct sample_run_returns as (res & h & Hrun).
  pose proof sample_run_statistics as Hs. cbv zeta in Hs.
  rewrite Hrun in Hs. cbn [fst snd] in Hs.
  destruct Hs as (_ & _ & _ & _ & _ & Hres & Hnle & _).
  destruct (Hclaim _ _ _ _ _ _ _ _ _ res h Hrun) as (_ & _ & _ & _ & Hle).
  - lia.
  - replace h
      with (snd (time sampleRender sampleNow sampleRep None false 3 1
                   sampleStart))
      by now rewrite Hrun.
    vm_compute. repeat constructor.
  - injection Hres as ->. vm_compute in Hle. discriminate Hle.
Qed.

Lemma statistics_of_timed_trials_witness :
  exists res h,
    time sampleRender sampleNow sampleRep None false 3 1 sampleStart
    = (Return res, h) /\
    List.length (times h) = 3 /\
    mean res = num_div (sumOf (times h)) (num_of_nat 3) /\
    In (min res) (times h) /\
    Forall (fun t => num_le (min res) t = true) (times h) /\
    res = {| mean := dyadic 6325305676641861 (-52);
             min := dyadic 6325305676641862 (-52) |}.
Proof.
  destruct sample_run_returns as (res & h & Hrun).
  exists res, h. split; [exact Hrun|].
  destruct (statistics_of_timed_trials sampleRender sampleNow sampleRep None 1
              false 3
              sampleStart res h Hrun) as (H1 & _ & H2 & H3 & H4 & _).
  - lia.
  - replace h
      with (snd (time sampleRender sampleNow sampleRep None false 3 1
                   sampleStart))
      by now rewrite Hrun.
    vm_compute. repeat constructor.
  - repeat split; auto.
    assert (Hfst : fst (time sampleRender sampleNow sampleRep None false 3 1
                          sampleStart)
                   = Return {| mean := dyadic 6325305676641861 (-52);
                               min := dyadic 6325305676641862 (-52) |})
      by (vm_compute; reflexivity).
    rewrite Hrun in Hfst. cbn [fst] in Hfst. now injection Hfst.
Defined.

Lemma outputs_kept_without_dispose_witness :
  exists res h timed,
    time sampleRender sampleNow sampleRep None false 3 1 sampleStart
    = (Return res, h) /\
    disposedIn timed = [] /\
    toDispose h = producedIn timed /\
    toDispose h = [tensorNo 1; tensorNo 2; tensorNo 3].
Proof.
  destruct sample_run_returns as (res & h & Hrun).
  destruct (outputs_kept_without_dispose sampleRender sampleNow sampleRep None
              1 3
              sampleStart res h Hrun)
    as (hw & timed & _ & _ & _ & H1 & H2 & _).
  exists res, h, timed. repeat split; try assumption.
  replace h
    with (snd (time sampleRender sampleNow sampleRep None false 3 1
                 sampleStart))
    by now rewrite Hrun.
  vm_compute. reflexivity.
Defined.

Lemma checkComputationForErrors_reports_first_witness :
  exists pre num post,
    [dyadic 1 0; S754_nan; S754_infinity true] = pre ++ num :: post /\
    checkComputationForErrors sampleRender float32
      [dyadic 1 0; S754_nan; S754_infinity true] "add"
    = (["The result of the '" ++ "add" ++ "' is "
          ++ Number_toString sampleRender num ++ "."]%string,
       Throw exn_undefined).
Proof.
  destruct (checkComputationForErrors_reports_first sampleRender
              [dyadic 1 0; S754_nan; S754_infinity true] "add")
    as (pre & num & post & H1 & _ & _ & H2 & _).
  - right. left. reflexivity.
  - now exists pre, num, post.
Defined.

Lemma profileKernel_returns_thunk_value_witness :
  profileKernel sampleTimer "add" [] sampleThunk 0
  = (Return (Many [nanTensor; sampleTensor]), 3,
     spawn [nanTensor; sampleTensor]).
Proof.
  destruct (profileKernel_returns_thunk_value sampleTimer "add" []
              sampleThunk 0) as (pre & post & _ & _ & _).
  - right. left. reflexivity.
  - reflexivity.
Defined.

Lemma log_follows_materialization_and_check_witness :
  exists b,
    run sampleRender "add" []
      [ResolveData 1; ResolveTimer sampleTiming; ResolveData 0;
       RunTimerCallback 1]
      (spawn [nanTensor; sampleTensor]) = Some b /\
    In (EvChecked 0 (Throw exn_undefined)) (trace b) /\
    (forall args, ~ In (EvLogged 0 args) (trace b)).
Proof.
  eexists. split; [vm_compute; reflexivity|].
  assert (Hthrown : In (EvChecked 0 (Throw exn_undefined))
            [EvMaterialized 1; EvChecked 1 (Return tt); EvMaterialized 0;
             EvConsoleError "The result of the 'add' is NaN.";
             EvChecked 0 (Throw exn_undefined);
             EvLogged 1
               (logKernelProfile sampleRender "add" sampleTensor
                  (values sampleTensor) (kernelMs sampleTiming) []
                  (Some ""))]).
  { right. right. right. right. left. reflexivity. }
  split.
  - vm_compute. vm_compute in Hthrown. exact Hthrown.
  - intros args.
    refine (proj1 (proj2
              (log_follows_materialization_and_check sampleRender "add" []
                 sampleTimer sampleThunk 0 3
                 (Return (Many [nanTensor; sampleTensor]))
                 (spawn [nanTensor; sampleTensor]) _
                 [ResolveData 1; ResolveTimer sampleTiming; ResolveData 0;
                  RunTimerCallback 1] _ _))
              0 exn_undefined _ args).
    + vm_compute. reflexivity.
    + vm_compute. reflexivity.
    + vm_compute. vm_compute in Hthrown. exact Hthrown.
Defined.

(* ================================================================= *)
(** ** The benchmark helper: where the outputs go *)

Section DisposalFacts.

Context {W : Type}.
Variable finiteToString : bool -> positive -> Z -> string.
Variable now : W -> number * W.
Variable doRep : nat -> W -> Outputs * W.
Variable endTrial : option (W -> W).
Variable reps : nat.

Lemma trial_accounted (h h' : Harness) (c : completion unit) :
  trial doRep endTrial reps h = (c, h') ->
  producedIn (log h) = disposedIn (log h) ++ toDispose h ->
  producedIn (log h') = disposedIn (log h') ++ toDispose h'.
Proof.
  intros Htrial Hacc. apply trial_effect in Htrial.
  destruct Htrial as (added & -> & _ & -> & _ & Hnodisp & _).
  autorewrite with logs. now rewrite Hnodisp, app_nil_r, Hacc, app_assoc.
Qed.

Lemma dispose_accounted (h : @Harness W) :
  producedIn (log h) = disposedIn (log h) ++ toDispose h ->
  producedIn (log (dispose h))
  = disposedIn (log (dispose h)) ++ toDispose (dispose h).
Proof.
  intros Hacc. cbn [dispose log toDispose]. autorewrite with logs.
  now rewrite !app_nil_r.
Qed.

Lemma timedLoop_accounted (d : bool) (k : nat) (h h' : Harness)
  (c : completion unit) :
  timedLoop now doRep endTrial d reps k h = (c, h') ->
  producedIn (log h) = disposedIn (log h) ++ toDispose h ->
  producedIn (log h') = disposedIn (log h') ++ toDispose h'.
Proof.
  revert h. induction k as [|k IH]; intros h Hloop Hacc;
    cbn [timedLoop] in Hloop.
  - now injection Hloop as _ <-.
  - destruct (now (world h)) as [start w1].
    destruct (trial doRep endTrial reps _) as [[[]|e] h2] eqn:Htrial;
      apply trial_accounted in Htrial;
      try (cbn [log toDispose]; autorewrite with logs; cbn;
           now rewrite !app_nil_r).
    + destruct (now (world h2)) as [stop w3].
      apply IH in Hloop; [exact Hloop|].
      assert (Hstep : producedIn (log h2 ++ [BNow stop])
                      = disposedIn (log h2 ++ [BNow stop]) ++ toDispose h2).
      { autorewrite with logs. cbn. now rewrite !app_nil_r. }
      destruct d; [|exact Hstep].
      now apply (dispose_accounted
                   {| world := w3; toDispose := toDispose h2;
                      times := times h2 ++ [num_sub stop start];
                      log := log h2 ++ [BNow stop] |}).
    + now injection Hloop as _ <-.
Qed.

Lemma time_accounted (d : bool) (trials : nat) (w : W) :
  let h := snd (time finiteToString now doRep endTrial d trials reps w) in
  producedIn (log h) = disposedIn (log h) ++ toDispose h.
Proof.
  cbv zeta. unfold time.
  destruct (trial doRep endTrial reps _) as [[[]|e] hw] eqn:Hw;
    apply trial_accounted in Hw; try reflexivity; [|exact Hw].
  apply dispose_accounted in Hw.
  destruct (timedLoop now doRep endTrial d reps trials (dispose hw))
    as [[[]|e] h2] eqn:H2;
    apply timedLoop_accounted in H2; try exact Hw; [|exact H2].
  cbn [snd log toDispose]. autorewrite with logs. cbn.
  now rewrite !app_nil_r.
Qed.

Lemma timedLoop_disposing (k : nat) (h h' : Harness) :
  timedLoop now doRep endTrial true reps k h = (Return tt, h') ->
  toDispose h = [] -> toDispose h' = [].
Proof.
  revert h. induction k as [|k IH]; intros h Hloop Hempty;
    cbn [timedLoop] in Hloop.
  - now injection Hloop as <-.
  - destruct (now (world h)) as [start w1].
    destruct (trial doRep endTrial reps _) as [[[]|e] h2]; [|discriminate].
    destruct (now (world h2)) as [stop w3].
    now apply IH in Hloop.
Qed.

(** X2. With [disposeAfterEachTrial] set, a run of [time] that returns
    has disposed every tensor that a repetition returned, alone or in a
    sequence, in the order produced, and holds none: [toDispose] is
    empty at the end, and it is empty after each timed trial. *)
Theorem all_outputs_disposed (trials : nat) (w : W)
  (res : BenchmarkResult) (h : Harness) :
  time finiteToString now doRep endTrial true trials reps w
  = (Return res, h) ->
  toDispose h = [] /\
  disposedIn (log h) = producedIn (log h) /\
  (forall r t, In (BRep r (One t)) (log h) -> In t (disposedIn (log h))) /\
  (forall r ts t, In (BRep r (Many ts)) (log h) -> In t ts ->
                  In t (disposedIn (log h))) /\
  (forall k1 k2 hw h1,
      trials = k1 + k2 ->
      trial doRep endTrial reps
        {| world := w; toDispose := []; times := []; log := [] |}
      = (Return tt, hw) ->
      timedLoop now doRep endTrial true reps k1 (dispose hw)
      = (Return tt, h1) ->
      toDispose h1 = []).
Proof.
  intros Htime.
  pose proof (time_accounted true trials w) as Hacc. cbv zeta in Hacc.
  rewrite Htime in Hacc. cbn [snd] in Hacc.
  destruct (time_phases _ _ _ _ _ _ _ _ _ _ Htime)
    as (hw & h2 & Hw & H2 & _ & _ & Hdisp & _ & _).
  assert (Hempty : toDispose h = []).
  { rewrite Hdisp. now apply (timedLoop_disposing trials (dispose hw)). }
  assert (Hall : disposedIn (log h) = producedIn (log h))
    by now rewrite Hacc, Hempty, app_nil_r.
  assert (Hgone : forall r result t,
            In (BRep r result) (log h) -> In t (tensorsOf result) ->
            In t (disposedIn (log h))).
  { intros r result t Hin Ht. rewrite Hall. unfold producedIn.
    apply in_flat_map. now exists (BRep r result). }
  repeat split; auto.
  - intros r t Hin. apply (Hgone r (One t) t Hin). now left.
  - intros r ts t Hin Ht. exact (Hgone r (Many ts) t Hin Ht).
  - intros k1 k2 hw' h1 _ _ H1.
    now apply (timedLoop_disposing k1 (dispose hw')).
Qed.

End DisposalFacts.

(* ================================================================= *)
(** ** The benchmark helper with promises: one trial *)

Lemma linesIn_app (a b : list BenchEvent) :
  linesIn (a ++ b) = linesIn a ++ linesIn b.
Proof. apply flat_map_app. Qed.

Lemma linesIn_disposals (ts : list Tensor) : linesIn (map BDispose ts) = [].
Proof. induction ts as [|t ts IH]; simpl; auto. Qed.

#[local] Hint Rewrite linesIn_app linesIn_disposals : logs.

Lemma durations_length_le (k : nat) (l : list number) :
  List.length l <= 2 * k -> List.length (durations l) <= k.
Proof.
  revert l. induction k as [|k IH]; intros l Hl.
  - destruct l; simpl in *; lia.
  - destruct l as [|a [|b l]]; cbn [durations List.length] in *; try lia.
    specialize (IH l). lia.
Qed.

Section AwaitingFacts.

Context {W : Type}.
Variable finiteToString : bool -> positive -> Z -> string.
Variable now : W -> number * W.
Variable doRep : nat -> W -> completion Outputs * W.
Variable endTrial : option (W -> Awaited unit * W).
Variable tensorData : Tensor -> W -> Awaited unit * W.
Variable tensorDispose : Tensor -> W -> W.
Variable reps : nat.

(** What the loop of a trial adds to the shared variables, whether it
    runs to its end or [doRep] throws. *)
Lemma repLoopA_effect (k r : nat) (result : option Outputs)
  (h h' : Harness) (c : completion (option Outputs)) :
  repLoopA doRep k r result h = (c, h') ->
  exists added,
    log h' = log h ++ added /\
    times h' = times h /\
    toDispose h' = toDispose h ++ producedIn added /\
    readingsIn added = [] /\
    disposedIn added = [] /\
    linesIn added = [] /\
    repsIn added <= k /\
    (forall last, c = Return last -> repsIn added = k).
Proof.
  revert r result h. induction k as [|k IH]; intros r result h Hloop;
    cbn [repLoopA] in Hloop.
  - injection Hloop as <- <-. exists []. rewrite !app_nil_r.
    repeat split; auto.
  - destruct (doRep r (world h)) as [[res|e] w'].
    + apply IH in Hloop. cbn [log times toDispose] in Hloop.
      destruct Hloop
        as (added & Hlog & Htimes & Hdisp & Hread & Hnodisp & Hlines
            & Hle & Hall).
      exists (BRep r res :: added).
      rewrite Hlog, Htimes, Hdisp, <- !app_assoc, asArray_tensorsOf.
      change (producedIn (BRep r res :: added))
        with (tensorsOf res ++ producedIn added).
      change (readingsIn (BRep r res :: added)) with (readingsIn added).
      change (disposedIn (BRep r res :: added)) with (disposedIn added).
      change (linesIn (BRep r res :: added)) with (linesIn added).
      change (repsIn (BRep r res :: added)) with (S (repsIn added)).
      repeat split; auto; try lia.
      intros last Hc. now rewrite (Hall last Hc).
    + injection Hloop as <- <-. exists []. cbn. rewrite !app_nil_r.
      repeat split; auto; try lia. discriminate.
Qed.

(** A throw of the loop is a throw of [doRep]. *)
Lemma repLoopA_throws (k r : nat) (result : option Outputs)
  (h h' : Harness) (e : Exception) :
  repLoopA doRep k r result h = (Throw e, h') ->
  exists r' w', fst (doRep r' w') = Throw e.
Proof.
  revert r result h. induction k as [|k IH]; intros r result h Hloop;
    cbn [repLoopA] in Hloop; [discriminate|].
  destruct (doRep r (world h)) as [[res|e'] w'] eqn:Hrep.
  - now apply IH in Hloop.
  - injection Hloop as <- <-. exists r, (world h). now rewrite Hrep.
Qed.

(** The value of [result] after the loop: what the last call returned,
    which the log ends with. *)
Lemma repLoopA_last (k r : nat) (result : option Outputs)
  (h h' : Harness) (last : option Outputs) :
  repLoopA doRep k r result h = (Return last, h') ->
  (k = 0 /\ last = result) \/
  (exists pre res r' w,
      last = Some res /\
      log h' = pre ++ [BRep (r + k - 1) res] /\
      doRep r' w = (Return res, world h')).
Proof.
  revert r result h. induction k as [|k IH]; intros r result h Hloop;
    cbn [repLoopA] in Hloop.
  - injection Hloop as <- <-. now left.
  - right. destruct (doRep r (world h)) as [[res|e] w'] eqn:Hrep;
      [|discriminate].
    destruct (IH _ _ _ Hloop) as [[-> ->]|(pre & res' & r' & w0 & -> & Hlog & Hcall)].
    + cbn [repLoopA] in Hloop. injection Hloop as <-.
      exists (log h), res, r, (world h). cbn [log world].
      replace (r + 1 - 1) with r by lia. auto.
    + exists pre, res', r', w0.
      replace (r + S k - 1) with (S r + k - 1) by lia. auto.
Qed.

(** What a trial adds to the shared variables, however it ends. *)
Lemma trialA_effect (h h' : Harness) (a : Awaited unit) :
  trialA doRep endTrial tensorData reps h = (a, h') ->
  exists added,
    log h' = log h ++ added /\
    times h' = times h /\
    toDispose h' = toDispose h ++ producedIn added /\
    readingsIn added = [] /\
    disposedIn added = [] /\
    linesIn added = [] /\
    repsIn added <= reps /\
    (forall u, a = Fulfilled u -> repsIn added = reps).
Proof.
  unfold trialA. intros Htrial.
  destruct (repLoopA doRep reps 0 None h) as [[result|e] h1] eqn:Hloop;
    apply repLoopA_effect in Hloop;
    destruct Hloop
      as (added & Hlog & Htimes & Hdisp & Hread & Hnodisp & Hlines
          & Hle & Hall).
  - assert (Hcalls : forall tail,
      readingsIn tail = [] -> disposedIn tail = [] ->
      producedIn tail = [] -> linesIn tail = [] -> repsIn tail = 0 ->
      toDispose h1 = toDispose h ++ producedIn (added ++ tail) /\
      readingsIn (added ++ tail) = [] /\
      disposedIn (added ++ tail) = [] /\
      linesIn (added ++ tail) = [] /\
      repsIn (added ++ tail) <= reps /\
      (forall u : unit, a = Fulfilled u -> repsIn (added ++ tail) = reps)).
    { intros tail H1 H2 H3 H4 H5. autorewrite with logs.
      rewrite H1, H2, H3, H4, H5, Hread, Hnodisp, Hlines, !app_nil_r,
        Nat.add_0_r.
      repeat split; auto. intros u _. now apply (Hall result). }
    destruct endTrial as [hook|].
    + destruct (hook (world h1)) as [a' w'].
      injection Htrial as -> <-. cbn [log times toDispose].
      exists (added ++ [BEndTrial]).
      rewrite Hlog, Htimes, <- app_assoc.
      destruct (Hcalls [BEndTrial]) as (H1 & H2 & H3 & H4 & H5 & H6);
        try reflexivity.
      repeat split; auto.
    + destruct (completionProxy result) as [t|].
      * destruct (tensorData t (world h1)) as [a' w'].
        injection Htrial as -> <-. cbn [log times toDispose].
        exists (added ++ [BAwaitData t]).
        rewrite Hlog, Htimes, <- app_assoc.
        destruct (Hcalls [BAwaitData t]) as (H1 & H2 & H3 & H4 & H5 & H6);
          try reflexivity.
        repeat split; auto.
      * injection Htrial as <- <-. exists added.
        repeat split; auto. discriminate.
  - injection Htrial as <- <-. exists added.
    repeat split; auto. discriminate.
Qed.

(** Where the rejection of a trial comes from. *)
Lemma trialA_rejected (h h' : Harness) (e : Exception) :
  trialA doRep endTrial tensorData reps h = (Rejected e, h') ->
  rejectedBy doRep endTrial tensorData reps e (log h').
Proof.
  unfold trialA, rejectedBy. intros Htrial.
  destruct (repLoopA doRep reps 0 None h) as [[result|e'] h1] eqn:Hloop.
  - destruct endTrial as [hook|].
    + destruct (hook (world h1)) as [a' w'] eqn:Hhook.
      injection Htrial as -> <-. right. left.
      exists hook, (world h1), (log h1). now rewrite Hhook.
    + destruct (completionProxy result) as [t|] eqn:Hproxy.
      * destruct (tensorData t (world h1)) as [a' w'] eqn:Hdata.
        injection Htrial as -> <-. right. right. left.
        exists t, (world h1), (log h1). now rewrite Hdata.
      * injection Htrial as <- <-. right. right. right.
        repeat split.
        destruct (repLoopA_last _ _ _ _ _ _ Hloop)
          as [[Hreps _]|(pre & res & r' & w0 & -> & Hlog & _)];
          [now left|right].
        destruct res as [t|[|t ts]]; try discriminate.
        exists pre. exact Hlog.
  - injection Htrial as <- <-. left.
    exact (repLoopA_throws _ _ _ _ _ _ Hloop).
Qed.

(** Where a trial that is never settled waits. *)
Lemma trialA_unsettled (h h' : Harness) :
  trialA doRep endTrial tensorData reps h = (Unsettled, h') ->
  unsettledBy endTrial tensorData (log h').
Proof.
  unfold trialA, unsettledBy. intros Htrial.
  destruct (repLoopA doRep reps 0 None h) as [[result|e'] h1] eqn:Hloop;
    [|discriminate].
  destruct endTrial as [hook|].
  - destruct (hook (world h1)) as [a' w'] eqn:Hhook.
    injection Htrial as -> <-. left.
    exists hook, (world h1), (log h1). now rewrite Hhook.
  - destruct (completionProxy result) as [t|]; [|discriminate].
    destruct (tensorData t (world h1)) as [a' w'] eqn:Hdata.
    injection Htrial as -> <-. right.
    exists t, (world h1), (log h1). now rewrite Hdata.
Qed.

(* ----------------------------------------------------------------- *)
(** *** The timed loop and [time] *)

(** What the timed loop adds, however it ends: no line, at most [k]
    times, each the difference of a pair of readings. *)
Lemma timedLoopA_effect (d : bool) (k : nat) (h h' : Harness)
  (a : Awaited unit) :
  timedLoopA now doRep endTrial tensorData tensorDispose d reps k h
  = (a, h') ->
  exists added,
    log h' = log h ++ added /\
    times h' = times h ++ durations (readingsIn added) /\
    linesIn added = [] /\
    List.length (readingsIn added) <= 2 * k /\
    repsIn added <= k * reps /\
    (forall u, a = Fulfilled u ->
               List.length (readingsIn added) = 2 * k /\
               repsIn added = k * reps).
Proof.
  revert h. induction k as [|k IH]; intros h Hloop; cbn [timedLoopA] in Hloop.
  - injection Hloop as <- <-. exists []. rewrite !app_nil_r. cbn.
    repeat split; auto.
  - destruct (now (world h)) as [start w1].
    destruct (trialA doRep endTrial tensorData reps _) as [a2 h2] eqn:Htrial.
    apply trialA_effect in Htrial. cbn [log times toDispose] in Htrial.
    destruct Htrial
      as (ta & Hlog & Htimes & Hdisp & Hread & Hnodisp & Hlines
          & Hle & Hall).
    assert (Hstop : forall (e : Awaited unit),
              (forall u, e <> Fulfilled u) -> (e, h2) = (a, h') ->
              exists added,
                log h' = log h ++ added /\
                times h' = times h ++ durations (readingsIn added) /\
                linesIn added = [] /\
                List.length (readingsIn added) <= 2 * S k /\
                repsIn added <= S k * reps /\
                (forall u, a = Fulfilled u ->
                           List.length (readingsIn added) = 2 * S k /\
                           repsIn added = S k * reps)).
    { intros e He Heq. injection Heq as <- <-.
      exists ([BNow start] ++ ta).
      autorewrite with logs. rewrite Hread, Hlines, Hlog, Htimes.
      cbn [readingsIn linesIn repsIn flat_map filter app durations
           List.length].
      rewrite <- !app_assoc, !app_nil_r. cbn [app].
      repeat split; auto; try lia; now elim (He u). }
    destruct a2 as [[]|e|];
      [|apply (Hstop (Rejected e)); [discriminate|exact Hloop]
       |apply (Hstop Unsettled); [discriminate|exact Hloop]].
    clear Hstop. specialize (Hall tt eq_refl).
    destruct (now (world h2)) as [stop w3].
    apply IH in Hloop.
    destruct Hloop as (ra & Rlog & Rtimes & Rlines & Rread & Rreps & Rall).
    destruct d; cbn [disposeA log times toDispose] in Rlog, Rtimes.
    + exists ([BNow start] ++ ta ++ [BNow stop]
              ++ map BDispose (toDispose h2) ++ ra).
      autorewrite with logs. rewrite Hread, Hlines, Hall, Rlines.
      cbn [readingsIn linesIn repsIn flat_map filter app durations
           List.length].
      rewrite Rlog, Rtimes, Hlog, Htimes, <- !app_assoc. cbn [app].
      repeat split; auto; try lia;
        match goal with
        | Hu : a = Fulfilled ?u |- _ => destruct (Rall u Hu) as [R1 R2]; lia
        end.
    + exists ([BNow start] ++ ta ++ [BNow stop] ++ ra).
      autorewrite with logs. rewrite Hread, Hlines, Hall, Rlines.
      cbn [readingsIn linesIn repsIn flat_map filter app durations
           List.length].
      rewrite Rlog, Rtimes, Hlog, Htimes, <- !app_assoc. cbn [app].
      repeat split; auto; try lia;
        match goal with
        | Hu : a = Fulfilled ?u |- _ => destruct (Rall u Hu) as [R1 R2]; lia
        end.
Qed.

(** Where the timed loop stops when it does not run to its end. *)
Lemma timedLoopA_rejected (d : bool) (k : nat) (h h' : Harness)
  (e : Exception) :
  timedLoopA now doRep endTrial tensorData tensorDispose d reps k h
  = (Rejected e, h') ->
  rejectedBy doRep endTrial tensorData reps e (log h').
Proof.
  revert h. induction k as [|k IH]; intros h Hloop; cbn [timedLoopA] in Hloop;
    [discriminate|].
  destruct (now (world h)) as [start w1].
  destruct (trialA doRep endTrial tensorData reps _) as [[[]|e'|] h2]
    eqn:Htrial.
  - destruct (now (world h2)) as [stop w3]. now apply IH in Hloop.
  - injection Hloop as <- <-. exact (trialA_rejected _ _ _ Htrial).
  - discriminate.
Qed.

Lemma timedLoopA_unsettled (d : bool) (k : nat) (h h' : Harness) :
  timedLoopA now doRep endTrial tensorData tensorDispose d reps k h
  = (Unsettled, h') ->
  unsettledBy endTrial tensorData (log h').
Proof.
  revert h. induction k as [|k IH]; intros h Hloop; cbn [timedLoopA] in Hloop;
    [discriminate|].
  destruct (now (world h)) as [start w1].
  destruct (trialA doRep endTrial tensorData reps _) as [[[]|e'|] h2]
    eqn:Htrial.
  - destruct (now (world h2)) as [stop w3]. now apply IH in Hloop.
  - discriminate.
  - injection Hloop as <-. exact (trialA_unsettled _ _ Htrial).
Qed.

(** Every output produced is disposed or in [toDispose]: each step keeps
    this. *)
Lemma trialA_accounted (h h' : Harness) (a : Awaited unit) :
  trialA doRep endTrial tensorData reps h = (a, h') ->
  producedIn (log h) = disposedIn (log h) ++ toDispose h ->
  producedIn (log h') = disposedIn (log h') ++ toDispose h'.
Proof.
  intros Htrial Hacc. apply trialA_effect in Htrial.
  destruct Htrial as (added & -> & _ & -> & _ & Hnodisp & _).
  autorewrite with logs. now rewrite Hnodisp, app_nil_r, Hacc, app_assoc.
Qed.

Lemma disposeA_accounted (h : @Harness W) :
  producedIn (log h) = disposedIn (log h) ++ toDispose h ->
  producedIn (log (disposeA tensorDispose h))
  = disposedIn (log (disposeA tensorDispose h))
    ++ toDispose (disposeA tensorDispose h).
Proof.
  intros Hacc. cbn [disposeA log toDispose]. autorewrite with logs.
  now rewrite !app_nil_r.
Qed.

Lemma timedLoopA_accounted (d : bool) (k : nat) (h h' : Harness)
  (a : Awaited unit) :
  timedLoopA now doRep endTrial tensorData tensorDispose d reps k h
  = (a, h') ->
  producedIn (log h) = disposedIn (log h) ++ toDispose h ->
  producedIn (log h') = disposedIn (log h') ++ toDispose h'.
Proof.
  revert h. induction k as [|k IH]; intros h Hloop Hacc;
    cbn [timedLoopA] in Hloop.
  - now injection Hloop as _ <-.
  - destruct (now (world h)) as [start w1].
    destruct (trialA doRep endTrial tensorData reps _) as [a2 h2]
      eqn:Htrial.
    apply trialA_accounted in Htrial;
      [|cbn [log toDispose]; autorewrite with logs; cbn;
        now rewrite !app_nil_r].
    destruct a2 as [[]|e|]; try (now injection Hloop as _ <-).
    destruct (now (world h2)) as [stop w3].
    apply IH in Hloop; [exact Hloop|].
    assert (Hstep : producedIn (log h2 ++ [BNow stop])
                    = disposedIn (log h2 ++ [BNow stop]) ++ toDispose h2).
    { autorewrite with logs. cbn. now rewrite !app_nil_r. }
    destruct d; [|exact Hstep].
    now apply (disposeA_accounted
                 {| world := w3; toDispose := toDispose h2;
                    times := times h2 ++ [num_sub stop start];
                    log := log h2 ++ [BNow stop] |}).
Qed.

Lemma timeA_accounted (d : bool) (trials : nat) (w : W) :
  let h := snd (timeA finiteToString now doRep endTrial tensorData
                  tensorDispose d trials reps w) in
  producedIn (log h) = disposedIn (log h) ++ toDispose h.
Proof.
  cbv zeta. unfold timeA.
  destruct (trialA doRep endTrial tensorData reps _) as [a1 hw] eqn:Hw.
  apply trialA_accounted in Hw; [|reflexivity].
  destruct a1 as [[]|e|]; try exact Hw.
  apply disposeA_accounted in Hw.
  destruct (timedLoopA now doRep endTrial tensorData tensorDispose d reps
              trials (disposeA tensorDispose hw)) as [a2 h2] eqn:H2.
  apply timedLoopA_accounted in H2; [|exact Hw].
  destruct a2 as [[]|e|]; try exact H2.
  cbn [snd log toDispose]. autorewrite with logs. cbn.
  now rewrite !app_nil_r.
Qed.

(** X1. However a call of [time] ends, fulfilled, rejected at any point
    by a throw of [doRep], by the hook, by the values of a tensor or by
    the missing last result, or never settled: every tensor that a
    repetition has returned, alone or in a sequence, has either been
    disposed or is still in [toDispose], in the order produced, and
    nothing else has been disposed or is held. *)
Theorem outputs_accounted (d : bool) (trials : nat) (w : W) :
  let h := snd (timeA finiteToString now doRep endTrial tensorData
                  tensorDispose d trials reps w) in
  producedIn (log h) = disposedIn (log h) ++ toDispose h /\
  (forall r t, In (BRep r (One t)) (log h) ->
               In t (disposedIn (log h)) \/ In t (toDispose h)) /\
  (forall r ts t, In (BRep r (Many ts)) (log h) -> In t ts ->
                  In t (disposedIn (log h)) \/ In t (toDispose h)).
Proof.
  cbv zeta. pose proof (timeA_accounted d trials w) as Hacc.
  cbv zeta in Hacc.
  set (h := snd (timeA finiteToString now doRep endTrial tensorData
                   tensorDispose d trials reps w)) in *.
  assert (Hheld : forall r result t,
            In (BRep r result) (log h) -> In t (tensorsOf result) ->
            In t (disposedIn (log h)) \/ In t (toDispose h)).
  { intros r result t Hin Ht. apply in_app_or. rewrite <- Hacc.
    unfold producedIn. apply in_flat_map. now exists (BRep r result). }
  split; [exact Hacc|]. split.
  - intros r t Hin. apply (Hheld r (One t) t Hin). now left.
  - intros r ts t Hin Ht. exact (Hheld r (Many ts) t Hin Ht).
Qed.



(* ----------------------------------------------------------------- *)
(** *** Calls that are fulfilled *)

Section WhenNothingFails.

(** What holds of the state outside whenever [time] calls out. *)
Variable Inv : W -> Prop.

Hypothesis now_keeps : forall w, Inv w -> Inv (snd (now w)).

Hypothesis dispose_keeps : forall t w, Inv w -> Inv (tensorDispose t w).

Hypothesis doRep_returns : forall r w,
  Inv w -> exists res w', doRep r w = (Return res, w') /\ Inv w'.

(** The end of a trial: a hook that is fulfilled, or else at least one
    repetition, and results with a first tensor whose values can be read
    right after the repetition that returned it. *)
Hypothesis end_fulfilled :
  match endTrial with
  | Some hook =>
      forall w, Inv w -> exists w', hook w = (Fulfilled tt, w') /\ Inv w'
  | None =>
      1 <= reps /\
      forall r w res w',
        Inv w -> doRep r w = (Return res, w') ->
        exists t rest w'',
          tensorsOf res = t :: rest /\
          tensorData t w' = (Fulfilled tt, w'') /\ Inv w''
  end.

Lemma repLoopA_returns (k r : nat) (result : option Outputs) (h : Harness) :
  Inv (world h) ->
  exists last h',
    repLoopA doRep k r result h = (Return last, h') /\
    Inv (world h') /\
    ((k = 0 /\ last = result) \/
     (exists res r' w0,
         last = Some res /\ Inv w0 /\
         doRep r' w0 = (Return res, world h'))).
Proof.
  revert r result h. induction k as [|k IH]; intros r result h Hinv.
  - exists result, h. cbn. auto.
  - cbn [repLoopA].
    destruct (doRep_returns r (world h) Hinv) as (res & w' & Hrep & Hinv').
    rewrite Hrep.
    match goal with
    | |- context [repLoopA doRep k (S r) (Some res) ?h1] =>
        destruct (IH (S r) (Some res) h1 Hinv')
          as (last & h' & Hloop & Hfinal & Hlast)
    end.
    exists last, h'. split; [exact Hloop|]. split; [exact Hfinal|].
    right. destruct Hlast as [[-> ->]|Hlast]; [|exact Hlast].
    cbn [repLoopA] in Hloop. injection Hloop as <-.
    exists res, r, (world h). auto.
Qed.

Lemma trialA_fulfilled (h : Harness) :
  Inv (world h) ->
  exists h', trialA doRep endTrial tensorData reps h = (Fulfilled tt, h') /\
             Inv (world h').
Proof.
  intros Hinv. unfold trialA.
  destruct (repLoopA_returns reps 0 None h Hinv)
    as (last & h1 & -> & Hinv1 & Hlast).
  destruct endTrial as [hook|].
  - destruct (end_fulfilled (world h1) Hinv1) as (w' & -> & Hinv').
    eexists. split; [reflexivity|exact Hinv'].
  - destruct end_fulfilled as [Hreps Hproxy].
    destruct Hlast as [[Hzero _]|(res & r' & w0 & -> & Hinv0 & Hrep)];
      [lia|].
    destruct (Hproxy r' w0 res (world h1) Hinv0 Hrep)
      as (t & rest & w'' & Hfirst & Hdata & Hinv'').
    assert (Hp : completionProxy (Some res) = Some t).
    { destruct res as [t'|[|t' ts]]; cbn in Hfirst |- *;
        try discriminate; now injection Hfirst as -> _. }
    rewrite Hp, Hdata. eexists. split; [reflexivity|exact Hinv''].
Qed.

Lemma disposeA_keeps (h : @Harness W) :
  Inv (world h) -> Inv (world (disposeA tensorDispose h)).
Proof.
  cbn [disposeA world]. revert h.
  intros [w0 td ts l]. cbn [world toDispose]. revert w0.
  induction td as [|t td IH]; intros w0 Hinv; [exact Hinv|].
  cbn [fold_left]. apply IH. now apply dispose_keeps.
Qed.

Lemma timedLoopA_fulfilled (d : bool) (k : nat) (h : Harness) :
  Inv (world h) ->
  exists h',
    timedLoopA now doRep endTrial tensorData tensorDispose d reps k h
    = (Fulfilled tt, h') /\ Inv (world h').
Proof.
  revert h. induction k as [|k IH]; intros h Hinv; cbn [timedLoopA].
  - now exists h.
  - pose proof (now_keeps (world h) Hinv) as Hinv1.
    destruct (now (world h)) as [start w1]. cbn [snd] in Hinv1.
    match goal with
    | |- context [trialA doRep endTrial tensorData reps ?h1] =>
        destruct (trialA_fulfilled h1 Hinv1) as (h2 & -> & Hinv2)
    end.
    pose proof (now_keeps (world h2) Hinv2) as Hinv3.
    destruct (now (world h2)) as [stop w3]. cbn [snd] in Hinv3.
    apply IH. destruct d; [|exact Hinv3].
    now apply disposeA_keeps.
Qed.

(** X3. When [doRep] returns and the hook is fulfilled wherever [time]
    calls them, or, with no hook, there is at least one repetition and
    every result has a first tensor whose values can be read right
    after the repetition that returned it, the call of [time] is
    fulfilled: nothing in [time] itself throws, whatever the number of
    trials and the disposal mode. What holds of the state outside
    before the call and is kept by the clock, by the callbacks and by
    [dispose] holds after it. *)
Theorem time_returns (d : bool) (trials : nat) (w : W) :
  Inv w ->
  exists res h,
    timeA finiteToString now doRep endTrial tensorData tensorDispose d
      trials reps w = (Fulfilled res, h) /\
    Inv (world h).
Proof.
  intros Hinv. unfold timeA.
  match goal with
  | |- context [trialA doRep endTrial tensorData reps ?h0] =>
      destruct (trialA_fulfilled h0 Hinv) as (hw & -> & Hinvw)
  end.
  destruct (timedLoopA_fulfilled d trials (disposeA tensorDispose hw))
    as (h2 & -> & Hinv2); [now apply disposeA_keeps|].
  eexists. eexists. split; [reflexivity|exact Hinv2].
Qed.

End WhenNothingFails.

End AwaitingFacts.

(* ================================================================= *)
(** ** The benchmark helper with promises that are all fulfilled *)

Section SettledCallbacks.

Context {W : Type}.
Variable finiteToString : bool -> positive -> Z -> string.
Variable now : W -> number * W.
Variable doRep : nat -> W -> completion Outputs * W.
Variable endTrial : option (W -> completion unit * W).
Variable reps : nat.

Lemma disposeA_unnoticed (h : @Harness W) : disposeA unnoticed h = dispose h.
Proof.
  unfold disposeA, dispose. f_equal.
  generalize (world h). induction (toDispose h) as [|t ts IH]; intros w0;
    [reflexivity|apply IH].
Qed.

Lemma repLoopA_repLoopE (k r : nat) (result : option Outputs) (h : Harness) :
  repLoopA doRep k r result h = repLoopE doRep k r result h.
Proof.
  revert r result h. induction k as [|k IH]; intros r result h;
    [reflexivity|].
  cbn [repLoopA repLoopE].
  destruct (doRep r (world h)) as [[res|e] w']; [apply IH|reflexivity].
Qed.

Lemma trialA_settled (h : Harness) :
  trialA doRep (option_map settledHook endTrial) readable reps h
  = (settled (fst (trialE doRep endTrial reps h)),
     snd (trialE doRep endTrial reps h)).
Proof.
  unfold trialA, trialE. rewrite repLoopA_repLoopE.
  destruct (repLoopE doRep reps 0 None h) as [[result|e] h1];
    [|reflexivity].
  destruct endTrial as [hook|]; cbn [option_map].
  - unfold settledHook. now destruct (hook (world h1)) as [c w'].
  - now destruct (completionProxy result) as [t|].
Qed.

Lemma timedLoopA_settled (d : bool) (k : nat) (h : Harness) :
  timedLoopA now doRep (option_map settledHook endTrial) readable unnoticed
    d reps k h
  = (settled (fst (timedLoopE now doRep endTrial d reps k h)),
     snd (timedLoopE now doRep endTrial d reps k h)).
Proof.
  revert h. induction k as [|k IH]; intros h; [reflexivity|].
  cbn [timedLoopA timedLoopE].
  destruct (now (world h)) as [start w1]. rewrite trialA_settled.
  destruct (trialE doRep endTrial reps _) as [[[]|e] h2]; cbn [fst snd settled];
    [|reflexivity].
  destruct (now (world h2)) as [stop w3].
  destruct d; [rewrite disposeA_unnoticed|]; apply IH.
Qed.

(** With a hook and values that are settled at once, and disposals that
    the callbacks do not notice, [timeA] is [timeE]. *)
Lemma timeA_settled (d : bool) (trials : nat) (w : W) :
  timeA finiteToString now doRep (option_map settledHook endTrial) readable
    unnoticed d trials reps w
  = (settled (fst (timeE finiteToString now doRep endTrial d trials reps w)),
     snd (timeE finiteToString now doRep endTrial d trials reps w)).
Proof.
  unfold timeA, timeE. rewrite trialA_settled.
  destruct (trialE doRep endTrial reps _) as [[[]|e] hw]; cbn [fst snd settled];
    [|reflexivity].
  rewrite disposeA_unnoticed, timedLoopA_settled.
  now destruct (timedLoopE now doRep endTrial d reps trials (dispose hw))
    as [[[]|e] h2].
Qed.

End SettledCallbacks.

(* ================================================================= *)
(** ** The benchmark helper: no timed trial *)

Lemma binary_round_aux_sign (sx : bool) (mx ex : Z) (lx : location) :
  match binary_round_aux prec emax sx mx ex lx with
  | S754_zero s | S754_infinity s | S754_finite s _ _ => s = sx
  | S754_nan => True
  end.
Proof.
  unfold binary_round_aux.
  destruct (shr_fexp prec emax mx ex lx) as [mrs' e'].
  destruct (shr_fexp prec emax _ e' loc_Exact) as [mrs'' e''].
  destruct (shr_m mrs'') as [|p|p]; auto.
  now destruct (Z.leb e'' (emax - prec)).
Qed.

Lemma num_of_nat_sign (n : nat) :
  match num_of_nat n with
  | S754_zero s | S754_infinity s | S754_finite s _ _ => s = false
  | S754_nan => True
  end.
Proof.
  unfold num_of_nat, num_of_Z, binary_normalize, binary_round.
  destruct (Z.of_nat n) as [|p|p] eqn:Hn; [reflexivity| |lia].
  destruct (shl_align _ _ _) as [mz ez]. apply binary_round_aux_sign.
Qed.

Lemma infinity_per_rep (reps : nat) :
  isFinite (num_of_nat reps) = true ->
  num_div pos_infinity (num_of_nat reps) = pos_infinity.
Proof.
  pose proof (num_of_nat_sign reps) as Hs.
  destruct (num_of_nat reps) as [s|s| |s m e]; try discriminate;
    subst s; reflexivity.
Qed.

Section NoTrialFacts.

Context {W : Type}.
Variable finiteToString : bool -> positive -> Z -> string.
Variable now : W -> number * W.
Variable doRep : nat -> W -> Outputs * W.
Variable endTrial : option (W -> W).
Variable reps : nat.

(** X5. With [trials] 0, a run of [time] that returns has done the
    warm-up only: the clock is never read, no time is recorded, [mean]
    is 0 / 0, which is NaN, and [min] is the minimum of nothing, which
    is Infinity; and these are the figures of the two lines written. *)
Theorem no_timed_trial (d : bool) (w : W) (res : BenchmarkResult)
  (h : Harness) :
  time finiteToString now doRep endTrial d 0 reps w = (Return res, h) ->
  isFinite (num_of_nat reps) = true ->
  res = {| mean := S754_nan; min := pos_infinity |} /\
  times h = [] /\
  readingsIn (log h) = [] /\
  linesIn (log h)
  = ["Mean time: NaN ms -> NaN / rep";
     "Min time: Infinity ms -> Infinity / rep"]%string.
Proof.
  intros Htime Hreps.
  pose proof (lines_of_run _ _ _ _ _ _ _ _ _ _ Htime) as Hlines.
  destruct (readings_of_run _ _ _ _ _ _ _ _ _ _ Htime) as [Hlen Hdur].
  assert (Hread : readingsIn (log h) = []).
  { now destruct (readingsIn (log h)). }
  rewrite Hread in Hdur. cbn [durations] in Hdur.
  destruct (time_phases _ _ _ _ _ _ _ _ _ _ Htime)
    as (hw & h2 & _ & _ & Hres & _ & _ & Htimes & _).
  rewrite <- Htimes, Hdur in Hres.
  repeat split; auto.
  rewrite Hlines, Hres. cbn [mean min report linesIn flat_map app fmt].
  change (Math_min []) with pos_infinity.
  rewrite (infinity_per_rep reps Hreps).
  change (num_div (reduce_sum []) (num_of_nat 0)) with S754_nan.
  now destruct (num_of_nat reps).
Qed.

End NoTrialFacts.

(* ================================================================= *)
(** ** Profiler.profileKernel: how often things happen *)

Section OnceFacts.

Variable finiteToString : bool -> positive -> Z -> string.
Variable name : string.
Variable inputs : NamedTensorMap.

Lemma timesLogged_app (i : nat) (a b : list Event) :
  timesLogged i (a ++ b) = timesLogged i a + timesLogged i b.
Proof. unfold timesLogged. now rewrite filter_app, length_app. Qed.

Lemma timesChecked_app (i : nat) (a b : list Event) :
  timesChecked i (a ++ b) = timesChecked i a + timesChecked i b.
Proof. unfold timesChecked. now rewrite filter_app, length_app. Qed.

Lemma errorLines_app (a b : list Event) :
  errorLines (a ++ b) = errorLines a + errorLines b.
Proof. unfold errorLines. now rewrite filter_app, length_app. Qed.

Lemma checkLoop_one_line (vals : list number) :
  List.length (fst (checkLoop finiteToString vals name)) <= 1.
Proof.
  induction vals as [|x rest IH]; simpl; [lia|].
  destruct (isNaN x || negb (isFinite x)); simpl; lia.
Qed.

Lemma check_one_line (dtype : DataType) (vals : DataTypeMap dtype) :
  List.length (fst (checkComputationForErrors finiteToString dtype vals name))
  <= 1.
Proof.
  destruct dtype; simpl; try lia. apply checkLoop_one_line.
Qed.

Lemma onData_counts (i j : nat) (lines : list string) (c : completion unit) :
  let events :=
    EvMaterialized i :: map EvConsoleError lines ++ [EvChecked i c] in
  timesLogged j events = 0 /\
  timesChecked j events = (if Nat.eqb j i then 1 else 0) /\
  errorLines events = List.length lines.
Proof.
  cbv zeta. unfold timesLogged, timesChecked, errorLines.
  cbn [filter]. rewrite !filter_app, !length_app. cbn [filter].
  assert (H : forall p, (forall l, p (EvConsoleError l) = false) ->
    filter p (map EvConsoleError lines) = []).
  { intros p Hp. induction lines as [|l ls IH]; simpl; [reflexivity|].
    now rewrite Hp. }
  rewrite !H by reflexivity. clear H.
  split; [reflexivity|split].
  - now destruct (Nat.eqb j i).
  - cbn. induction lines as [|l ls IH]; simpl; lia.
Qed.

Lemma stage_of_setStage (ts : list Task) (i j : nat) (s : Stage) (t : Task) :
  nth_error ts i = Some t ->
  stage_of (setStage i s ts) j
  = if Nat.eqb i j then Some s else stage_of ts j.
Proof.
  intros Hnth. destruct (Nat.eqb_spec i j) as [->|Hne].
  - now apply (stage_of_setStage_same ts j s t).
  - now apply stage_of_setStage_other.
Qed.

Lemma length_setStage (ts : list Task) (i : nat) (s : Stage) :
  List.length (setStage i s ts) = List.length ts.
Proof.
  revert i. induction ts as [|t0 ts IH]; intros [|i]; simpl; auto.
Qed.

Lemma pendingCount_setStage (ts : list Task) (i : nat) (s : Stage)
  (r : Tensor) (s0 : Stage) :
  nth_error ts i = Some (mkTask r s0) ->
  pendingCount (setStage i s ts) + (if isPending (mkTask r s0) then 1 else 0)
  = pendingCount ts + (if isPending (mkTask r s) then 1 else 0).
Proof.
  unfold pendingCount.
  revert i. induction ts as [|t0 ts IH]; intros [|i] Hnth; simpl in *;
    try discriminate.
  - injection Hnth as ->. cbn [output].
    destruct s, s0; cbn; lia.
  - specialize (IH i Hnth). destruct (isPending t0); cbn [List.length]; lia.
Qed.

Lemma spawn_once (results : list Tensor) : Once (spawn results).
Proof.
  constructor; cbn [spawn trace tasks]; intros.
  - unfold stage_of. rewrite nth_error_map.
    now destruct (nth_error results i).
  - cbn. lia.
  - reflexivity.
  - unfold pendingCount. rewrite length_map. cbn.
    induction results as [|r rs IH]; cbn; lia.
Qed.

(** Splits on whether two indices are the same, and settles the tests
    that compare them. *)
Ltac split_index i j :=
  let Heq := fresh "Heq" in
  let Hne := fresh "Hne" in
  destruct (Nat.eq_dec i j) as [Heq|Hne];
  [subst j; rewrite ?Nat.eqb_refl in *
  |rewrite ?(proj2 (Nat.eqb_neq i j)), ?(proj2 (Nat.eqb_neq j i)) in *
     by congruence].

Lemma step_once (a : Action) (b b' : Background) :
  Once b ->
  step finiteToString name inputs a b = Some b' ->
  Once b'.
Proof.
  intros [Hlogged Hchecked Hunchecked Hlines] Hstep.
  destruct a as [t|i|i|i]; cbn [step] in Hstep.
  - destruct (timing b); [discriminate|]. injection Hstep as <-.
    now constructor.
  - destruct (nth_error (tasks b) i) as [[r [| | |]]|] eqn:Hnth;
      try discriminate.
    injection Hstep as <-.
    pose proof (stage_of_nth _ _ _ _ Hnth) as Hst.
    pose proof (pendingCount_setStage (tasks b) i) as Hpend.
    pose proof (check_one_line (dtype r) (values r)) as Hone.
    unfold onData.
    destruct (checkComputationForErrors finiteToString (dtype r) (values r)
                name) as [lines c].
    cbn [fst] in Hone.
    assert (Hnew : forall s, s <> Logged -> s <> AwaitData ->
      Once {| timing := timing b;
              tasks := setStage i s (tasks b);
              trace := trace b ++ EvMaterialized i
                         :: map EvConsoleError lines ++ [EvChecked i c] |}).
    { intros s Hs1 Hs2. constructor; cbn [trace tasks].
      - intros j. destruct (onData_counts i j lines c) as (H1 & _ & _).
        rewrite timesLogged_app, H1, (stage_of_setStage _ _ _ _ _ Hnth).
        rewrite Hlogged, Nat.add_0_r.
        split_index i j; [|reflexivity].
        rewrite Hst. now destruct s.
      - intros j. destruct (onData_counts i j lines c) as (_ & H2 & _).
        rewrite timesChecked_app, H2.
        split_index i j.
        + rewrite (Hunchecked i Hst). lia.
        + specialize (Hchecked j). lia.
      - intros j Hj. destruct (onData_counts i j lines c) as (_ & H2 & _).
        rewrite (stage_of_setStage _ _ _ _ _ Hnth) in Hj.
        rewrite timesChecked_app, H2.
        split_index i j.
        + injection Hj as ->. now elim Hs2.
        + now rewrite (Hunchecked j Hj).
      - destruct (onData_counts i 0 lines c) as (_ & _ & H3).
        rewrite errorLines_app, H3, length_setStage.
        specialize (Hpend s r AwaitData Hnth). cbn in Hpend.
        destruct s; cbn in Hpend; try lia; now elim Hs2. }
    destruct c as [[]|e]; apply Hnew; discriminate.
  - destruct (nth_error (tasks b) i) as [[r [| | |]]|] eqn:Hnth;
      try discriminate.
    injection Hstep as <-.
    pose proof (stage_of_nth _ _ _ _ Hnth) as Hst.
    constructor; cbn [trace tasks].
    + intros j. rewrite (stage_of_setStage _ _ _ _ _ Hnth), Hlogged.
      split_index i j; [|reflexivity].
      now rewrite Hst.
    + exact Hchecked.
    + intros j Hj. rewrite (stage_of_setStage _ _ _ _ _ Hnth) in Hj.
      split_index i j; [discriminate|auto].
    + rewrite length_setStage.
      pose proof (pendingCount_setStage (tasks b) i Abandoned r AwaitData
                    Hnth) as Hpend.
      cbn in Hpend. lia.
  - destruct (nth_error (tasks b) i) as [[r [| | |]]|] eqn:Hnth;
      try discriminate.
    destruct (timing b) as [t|]; [|discriminate].
    injection Hstep as <-.
    pose proof (stage_of_nth _ _ _ _ Hnth) as Hst.
    unfold onTiming. constructor; cbn [trace tasks].
    + intros j. rewrite timesLogged_app, (stage_of_setStage _ _ _ _ _ Hnth).
      rewrite Hlogged. unfold timesLogged. cbn [filter].
      split_index i j.
      * rewrite Hst. reflexivity.
      * cbn. lia.
    + intros j. rewrite timesChecked_app. cbn. specialize (Hchecked j). lia.
    + intros j Hj. rewrite (stage_of_setStage _ _ _ _ _ Hnth) in Hj.
      rewrite timesChecked_app. cbn.
      split_index i j; [discriminate|].
      now rewrite (Hunchecked j Hj).
    + rewrite errorLines_app, length_setStage. cbn.
      pose proof (pendingCount_setStage (tasks b) i Logged r AwaitTimer
                    Hnth) as Hpend.
      cbn in Hpend. lia.
Qed.

Lemma run_once (schedule : list Action) (b b' : Background) :
  Once b ->
  run finiteToString name inputs schedule b = Some b' ->
  Once b'.
Proof.
  revert b. induction schedule as [|a rest IH]; intros b Hb Hrun;
    cbn [run] in Hrun.
  - now injection Hrun as <-.
  - destruct (step finiteToString name inputs a b) as [b1|] eqn:Hstep;
      [|discriminate].
    apply (IH b1); [|exact Hrun]. now apply (step_once a b).
Qed.

Lemma run_length_tasks (schedule : list Action) (b b' : Background) :
  run finiteToString name inputs schedule b = Some b' ->
  List.length (tasks b') = List.length (tasks b).
Proof.
  revert b. induction schedule as [|a rest IH]; intros b Hrun;
    cbn [run] in Hrun.
  - now injection Hrun as <-.
  - destruct (step finiteToString name inputs a b) as [b1|] eqn:Hstep;
      [|discriminate].
    rewrite (IH b1 Hrun).
    destruct a as [t|i|i|i]; cbn [step] in Hstep.
    + destruct (timing b); [discriminate|]. now injection Hstep as <-.
    + destruct (nth_error (tasks b) i) as [[r [| | |]]|];
        try discriminate.
      injection Hstep as <-. unfold onData.
      destruct (checkComputationForErrors _ _ _ _) as [lines [[]|e]];
        apply length_setStage.
    + destruct (nth_error (tasks b) i) as [[r [| | |]]|];
        try discriminate.
      injection Hstep as <-. apply length_setStage.
    + destruct (nth_error (tasks b) i) as [[r [| | |]]|];
        try discriminate.
      destruct (timing b); [|discriminate].
      injection Hstep as <-. apply length_setStage.
Qed.

(** X6. Whatever the order in which the host settles the promises of one
    [profileKernel] call, the check of an output completes at most once,
    a record is logged for an output at most once, and the lines written
    to [console.error] are at most as many as the outputs. *)
Theorem at_most_once_per_output
  {W : Type} (backendTimer : @BackendTimer W) (f : Thunk) (w w' : W)
  (r : Outputs) (b0 b : Background) (schedule : list Action) :
  profileKernel backendTimer name inputs f w = (Return r, w', b0) ->
  run finiteToString name inputs schedule b0 = Some b ->
  (forall i, timesChecked i (trace b) <= 1) /\
  (forall i, timesLogged i (trace b) <= 1) /\
  errorLines (trace b) <= List.length (asArray r).
Proof.
  intros Hcall Hrun.
  assert (Hb0 : b0 = spawn (asArray r)).
  { unfold profileKernel in Hcall.
    destruct (runTimer f backendTimer (None, w)) as [[r1|] w1];
      [|discriminate].
    now injection Hcall as <- _ <-. }
  subst b0.
  pose proof (run_once schedule _ _ (spawn_once _) Hrun)
    as [Hlogged Hchecked _ Hlines].
  pose proof (run_length_tasks schedule _ _ Hrun) as Hlen.
  cbn [spawn tasks] in Hlen. rewrite length_map in Hlen.
  repeat split; auto.
  - intros i. rewrite Hlogged.
    destruct (stage_of (tasks b) i) as [[| | |]|]; lia.
  - lia.
Qed.

(** X7. A kernel that returns an empty array leaves no background work:
    whatever the host does afterwards, nothing is checked, written or
    logged for that call. *)
Theorem no_outputs_no_events
  {W : Type} (backendTimer : @BackendTimer W) (f : Thunk) (w w' : W)
  (b0 b : Background) (schedule : list Action) :
  profileKernel backendTimer name inputs f w = (Return (Many []), w', b0) ->
  run finiteToString name inputs schedule b0 = Some b ->
  trace b = [] /\ tasks b = [].
Proof.
  intros Hcall Hrun.
  assert (Hb0 : tasks b0 = [] /\ trace b0 = []).
  { unfold profileKernel in Hcall.
    destruct (runTimer f backendTimer (None, w)) as [[r1|] w1];
      [|discriminate].
    injection Hcall as -> _ <-. now split. }
  clear Hcall. revert b0 Hb0 Hrun.
  induction schedule as [|a rest IH]; intros b0 [Ht Htr] Hrun;
    cbn [run] in Hrun.
  - injection Hrun as <-. now split.
  - destruct (step finiteToString name inputs a b0) as [b1|] eqn:Hstep;
      [|discriminate].
    apply (IH b1); [|exact Hrun].
    destruct a as [t|i|i|i]; cbn [step] in Hstep; rewrite Ht in Hstep.
    + destruct (timing b0); [discriminate|]. injection Hstep as <-.
      now split.
    + now destruct i.
    + now destruct i.
    + now destruct i.
Qed.

End OnceFacts.

(* ================================================================= *)
(** ** Profiler.profileKernel: every output in turn *)

Section InTurnFacts.

Variable finiteToString : bool -> positive -> Z -> string.
Variable name : string.
Variable inputs : NamedTensorMap.
Variable t : BackendTimingInfo.

Lemma nth_error_middle {A : Type} (done : list A) (x : A) (rest : list A) :
  nth_error (done ++ x :: rest) (List.length done) = Some x.
Proof. induction done as [|d done IH]; simpl; auto. Qed.

Lemma setStage_middle (done : list Task) (x : Task) (rest : list Task)
  (s : Stage) :
  setStage (List.length done) s (done ++ x :: rest)
  = done ++ mkTask (output x) s :: rest.
Proof. induction done as [|d done IH]; simpl; [reflexivity|]. now rewrite IH. Qed.

Lemma inTurn_run (todo : list Tensor) (done : list Task) (b : Background) :
  timing b = Some t ->
  tasks b = done ++ map (fun r => mkTask r AwaitData) todo ->
  exists b',
    run finiteToString name inputs
      (inTurn finiteToString name (List.length done) todo) b = Some b' /\
    tasks b' = done ++ map (finalTask finiteToString name) todo /\
    trace b'
    = trace b
      ++ inTurnTrace finiteToString name inputs t (List.length done) todo.
Proof.
  revert done b. induction todo as [|r rest IH]; intros done b Ht Htasks.
  - exists b. cbn in *. rewrite app_nil_r in Htasks. rewrite !app_nil_r.
    repeat split; auto.
  - cbn [map] in Htasks.
    destruct (checkComputationForErrors finiteToString (dtype r) (values r)
                name) as [lines c] eqn:Hcheck.
    assert (Hpass : passes finiteToString name r
                    = match c with Return _ => true | Throw _ => false end).
    { unfold passes. now rewrite Hcheck. }
    assert (Hev : dataEvents finiteToString name (List.length done) r
                  = EvMaterialized (List.length done)
                      :: map EvConsoleError lines
                      ++ [EvChecked (List.length done) c]).
    { unfold dataEvents. now rewrite Hcheck. }
    assert (Hlen : forall x : Task,
              List.length (done ++ [x]) = S (List.length done)).
    { intros x. rewrite length_app. cbn. lia. }
    cbn [inTurn inTurnTrace run step map]. rewrite Htasks, nth_error_middle.
    change (finalTask finiteToString name r)
      with (mkTask r (if passes finiteToString name r
                      then Logged else Abandoned)).
    rewrite Hpass, Hev. unfold onData. rewrite Hcheck.
    destruct c as [[]|e].
    + cbn [app run step tasks timing]. rewrite Htasks, setStage_middle.
      cbn [output]. rewrite nth_error_middle, Ht.
      unfold onTiming. cbn [tasks trace timing].
      rewrite setStage_middle. cbn [output].
      match goal with
      | |- context [run _ _ _ _ ?b2] =>
          destruct (IH (done ++ [mkTask r Logged]) b2)
            as (b' & Hrun & Hts & Htr)
      end.
      * cbn [timing]. congruence.
      * cbn [tasks]. now rewrite <- app_assoc.
      * rewrite Hlen in Hrun, Htr. exists b'. split; [exact Hrun|].
        rewrite Hts, Htr. cbn [trace]. unfold recordOf.
        rewrite <- !app_assoc. cbn [app]. now rewrite <- ?app_assoc.
    + cbn [app tasks]. rewrite Htasks, setStage_middle. cbn [output].
      match goal with
      | |- context [run _ _ _ _ ?b2] =>
          destruct (IH (done ++ [mkTask r Abandoned]) b2)
            as (b' & Hrun & Hts & Htr)
      end.
      * cbn [timing]. congruence.
      * cbn [tasks]. now rewrite <- app_assoc.
      * rewrite Hlen in Hrun, Htr. exists b'. split; [exact Hrun|].
        rewrite Hts, Htr. cbn [trace].
        rewrite <- !app_assoc. cbn [app]. now rewrite <- ?app_assoc.
Qed.

Lemma logged_in_turn (outs : list Tensor) (k i : nat) (out : Tensor) :
  nth_error outs i = Some out ->
  passes finiteToString name out = true ->
  In (EvLogged (k + i) (recordOf finiteToString name inputs t out))
     (inTurnTrace finiteToString name inputs t k outs).
Proof.
  revert k i. induction outs as [|r rest IH]; intros k [|i] Hnth Hpass;
    try discriminate; cbn [inTurnTrace].
  - injection Hnth as ->. rewrite Hpass, Nat.add_0_r.
    apply in_or_app. right. now left.
  - apply in_or_app. right. apply in_or_app. right.
    replace (k + S i) with (S k + i) by lia. now apply IH.
Qed.

(** X8. After a [profileKernel] call, once the timer's promise is
    settled, the host can settle the values of each output in turn: the
    check of each is run, and each output whose check returns has its
    record logged, with the timing of the call, also when the check of
    another output threw. *)
Theorem every_checked_output_logged
  {W : Type} (backendTimer : @BackendTimer W) (f : Thunk) (w w' : W)
  (r : Outputs) (b0 : Background) :
  profileKernel backendTimer name inputs f w = (Return r, w', b0) ->
  exists b,
    run finiteToString name inputs
      (ResolveTimer t :: inTurn finiteToString name 0 (asArray r)) b0
    = Some b /\
    trace b = inTurnTrace finiteToString name inputs t 0 (asArray r) /\
    (forall i out,
        nth_error (asArray r) i = Some out ->
        passes finiteToString name out = true ->
        In (EvLogged i (logKernelProfile finiteToString name out (values out)
                          (kernelMs t) inputs
                          (Some match getExtraProfileInfo t with
                                | Some s => s
                                | None => ""
                                end)))
           (trace b)).
Proof.
  intros Hcall.
  assert (Hb0 : b0 = spawn (asArray r)).
  { unfold profileKernel in Hcall.
    destruct (runTimer f backendTimer (None, w)) as [[r1|] w1];
      [|discriminate].
    now injection Hcall as <- _ <-. }
  subst b0. cbn [run step spawn timing tasks trace].
  match goal with
  | |- context [run _ _ _ _ ?b1] =>
      destruct (inTurn_run (asArray r) [] b1 eq_refl eq_refl)
        as (b & Hrun & _ & Htr)
  end.
  cbn [List.length trace app] in Hrun, Htr.
  exists b. repeat split; auto.
  intros i out Hnth Hpass. rewrite Htr.
  apply (logged_in_turn (asArray r) 0 i out Hnth Hpass).
Qed.

End InTurnFacts.

(* ================================================================= *)
(** ** The benchmark helper: callbacks that return *)

Section ReturningCallbacks.

Context {W : Type}.
Variable finiteToString : bool -> positive -> Z -> string.
Variable now : W -> number * W.
Variable doRep : nat -> W -> Outputs * W.
Variable endTrial : option (W -> W).
Variable reps : nat.

Lemma repLoopE_returning (k r : nat) (result : option Outputs)
  (h : Harness) :
  repLoopE (fun i => returning (doRep i)) k r result h
  = (Return (fst (repLoop doRep k r result h)),
     snd (repLoop doRep k r result h)).
Proof.
  revert r result h. induction k as [|k IH]; intros r result h;
    [reflexivity|].
  cbn [repLoopE repLoop]. unfold returning at 1.
  destruct (doRep r (world h)) as [res w']. apply IH.
Qed.

Lemma trialE_returning (h : Harness) :
  trialE (fun i => returning (doRep i)) (option_map returningHook endTrial)
    reps h
  = trial doRep endTrial reps h.
Proof.
  unfold trialE, trial. rewrite repLoopE_returning.
  destruct (repLoop doRep reps 0 None h) as [result h1]. cbn [fst snd].
  now destruct endTrial as [hook|].
Qed.

Lemma timedLoopE_returning (d : bool) (k : nat) (h : Harness) :
  timedLoopE now (fun i => returning (doRep i))
    (option_map returningHook endTrial) d reps k h
  = timedLoop now doRep endTrial d reps k h.
Proof.
  revert h. induction k as [|k IH]; intros h; [reflexivity|].
  cbn [timedLoopE timedLoop].
  destruct (now (world h)) as [start w1]. rewrite trialE_returning.
  destruct (trial doRep endTrial reps _) as [[[]|e] h2]; [|reflexivity].
  destruct (now (world h2)) as [stop w3]. apply IH.
Qed.

(** With callbacks that always return, [timeE] is [time]. *)
Lemma timeE_returning (d : bool) (trials : nat) (w : W) :
  timeE finiteToString now (fun i => returning (doRep i))
    (option_map returningHook endTrial) d trials reps w
  = time finiteToString now doRep endTrial d trials reps w.
Proof.
  unfold timeE, time. rewrite trialE_returning.
  destruct (trial doRep endTrial reps _) as [[[]|e] hw]; [|reflexivity].
  now rewrite timedLoopE_returning.
Qed.

End ReturningCallbacks.

(* ================================================================= *)
(** ** The [argMax] benchmark *)

(** X9. [doTest] never completes, whatever the axis. Its call of [time]
    runs one repetition per trial, so only [maxes[0]] is ever filled;
    the hook of the warm-up trial reads [maxes[49]], finds [undefined]
    and throws a TypeError. By then one [argMax] has run, its result has
    not been disposed, the clock has not been read and nothing has been
    written. When that first [argMax] itself throws, [doTest] throws the
    same. *)
Theorem argMax_benchmark_throws
  {C : Type} (finiteToString : bool -> positive -> Z -> string)
  (clock : C -> number * C) (randomNormal : nat -> Tensor)
  (argMax : option Tensor -> Z -> completion Tensor) (axis : Z) (c : C) :
  match argMax (Some (randomNormal 0)) axis with
  | Throw e =>
      fst (ArgMax.doTest finiteToString clock randomNormal argMax axis c)
      = Throw e
  | Return m =>
      ArgMax.doTest finiteToString clock randomNormal argMax axis c
      = (Throw exn_TypeError,
         {| world := {| ArgMax.maxes := Some m :: repeat None 49;
                        ArgMax.awaited := [];
                        ArgMax.released := [];
                        ArgMax.outside := c |};
            toDispose := [];
            times := [];
            log := [BRep 0 (Many []); BEndTrial] |})
  end.
Proof.
  unfold ArgMax.doTest, timeE, trialE. cbn [repLoopE world].
  unfold ArgMax.argMaxRep.
  change (nth_error (ArgMax.tensors randomNormal) 0)
    with (Some (randomNormal 0)).
  destruct (argMax (Some (randomNormal 0)) axis) as [m|e]; reflexivity.
Qed.

(* ================================================================= *)
(** ** The benchmark helper: repetitions with one output *)

Section SingleOutputs.

Context {W : Type}.
Variable finiteToString : bool -> positive -> Z -> string.
Variable now : W -> number * W.
Variable doRep : nat -> W -> Outputs * W.
Variable endTrial : option (W -> W).
Variable reps : nat.

Hypothesis one_output : forall r w, exists t, fst (doRep r w) = One t.

Lemma repResults_single (k r : nat) (w : W) :
  List.length (flat_map asArray (repResults doRep k r w)) = k.
Proof.
  revert r w. induction k as [|k IH]; intros r w; [reflexivity|].
  cbn [repResults]. destruct (one_output r w) as [t Ht].
  destruct (doRep r w) as [res w']. cbn [fst] in Ht. subst res.
  cbn. now rewrite IH.
Qed.

Lemma trial_single (h h' : Harness) (c : completion unit) :
  trial doRep endTrial reps h = (c, h') ->
  List.length (toDispose h') = List.length (toDispose h) + reps.
Proof.
  unfold trial. rewrite repLoop_spec. intros Htrial.
  assert (Hlen : List.length
            (toDispose h ++ flat_map asArray
                              (repResults doRep reps 0 (world h)))
          = List.length (toDispose h) + reps).
  { now rewrite length_app, repResults_single. }
  destruct endTrial as [hook|].
  - now injection Htrial as _ <-.
  - destruct (completionProxy _); now injection Htrial as _ <-.
Qed.

Lemma timedLoop_single (k : nat) (h h' : Harness) :
  timedLoop now doRep endTrial false reps k h = (Return tt, h') ->
  List.length (toDispose h') = List.length (toDispose h) + k * reps.
Proof.
  revert h. induction k as [|k IH]; intros h Hloop; cbn [timedLoop] in Hloop.
  - injection Hloop as <-. lia.
  - destruct (now (world h)) as [start w1].
    destruct (trial doRep endTrial reps _) as [[[]|e] h2] eqn:Htrial;
      [|discriminate].
    apply trial_single in Htrial. cbn [toDispose] in Htrial.
    destruct (now (world h2)) as [stop w3].
    apply IH in Hloop. cbn [toDispose] in Hloop. lia.
Qed.

(** X10. When every repetition returns a single tensor and
    [disposeAfterEachTrial] is false, as in the [matMul], [add] and
    [conv2d] benchmarks, a run of [time] that returns ends holding
    [trials * reps] tensors in [toDispose], and has disposed [reps]
    tensors, those of the warm-up. *)
Theorem held_outputs_count (trials : nat) (w : W) (res : BenchmarkResult)
  (h : Harness) :
  time finiteToString now doRep endTrial false trials reps w
  = (Return res, h) ->
  List.length (toDispose h) = trials * reps /\
  List.length (disposedIn (log h)) = reps.
Proof.
  intros Htime.
  pose proof (time_accounted finiteToString now doRep endTrial reps false
                trials w) as Hacc.
  cbv zeta in Hacc. rewrite Htime in Hacc. cbn [snd] in Hacc.
  destruct (time_phases _ _ _ _ _ _ _ _ _ _ Htime)
    as (hw & h2 & Hw & H2 & _ & _ & Hdisp & _ & Hlog).
  pose proof (trial_single _ _ _ Hw) as Hwlen.
  pose proof (timedLoop_single _ _ _ H2) as H2len.
  cbn [dispose toDispose List.length] in Hwlen, H2len.
  assert (Hheld : List.length (toDispose h) = trials * reps)
    by (rewrite Hdisp; lia).
  split; [exact Hheld|].
  apply trial_effect in Hw. cbn [log toDispose app] in Hw.
  destruct Hw as (wa & Hwlog & _ & Hwdisp & _ & Hwnodisp & _).
  destruct (timedLoop_effect _ _ _ _ _ _ _ _ H2)
    as (ta & Tlog & _ & _ & _ & Tkeep).
  destruct (Tkeep eq_refl) as [Tnodisp _].
  cbn [dispose log] in Tlog.
  rewrite Hlog, Tlog, Hwlog. autorewrite with logs.
  rewrite Hwnodisp, Tnodisp. cbn. rewrite app_nil_r, Hwdisp in *.
  rewrite length_app. cbn. lia.
Qed.

End SingleOutputs.

(* ================================================================= *)
(** ** The component [App] *)

(** X11. What [render] offers: nothing to call while the backend is not
    ready; on the main screen, once it is ready, the two buttons, which
    lead to the diagnostic and to the demo screen; on each of these, one
    handler, which leads back to the main screen. No call of a handler
    changes [isTfReady]. *)
Theorem navigation_offered (s : App.AppState) :
  map (fun h => App.currentScreen (App.invoke h s))
      (App.handlers (App.render s))
  = (if App.isTfReady s then
       match App.currentScreen s with
       | App.main => [App.diag; App.demo]
       | _ => [App.main]
       end
     else []) /\
  (forall h, App.isTfReady (App.invoke h s) = App.isTfReady s).
Proof.
  split.
  - now destruct s as [[|] [| |]].
  - now intros [| |].
Qed.

Lemma after_events (events : list App.AppEvent) (s : App.AppState) :
  App.isTfReady (fold_left App.after events s)
  = App.isTfReady s || existsb App.isDidMount events /\
  App.currentScreen (fold_left App.after events s)
  = App.lastAsked (App.currentScreen s) events.
Proof.
  revert s. induction events as [|e rest IH]; intros s.
  - cbn. now rewrite orb_false_r.
  - cbn [fold_left existsb App.lastAsked].
    destruct (IH (App.after s e)) as [-> ->].
    destruct e as [|[| |]]; cbn; rewrite ?orb_true_r; auto.
Qed.

(** X12. After any sequence of calls of handlers and of completions of
    [componentDidMount], starting from the constructor's state: the
    component shows "Loading TF" exactly as long as no
    [componentDidMount] has completed, and from then on the screen that
    the last call of a handler asked for, the main screen when there was
    none, also when that call came before the backend was ready. *)
Theorem content_after_events (events : list App.AppEvent) :
  let s := fold_left App.after events App.initialState in
  App.renderContent s
  = if existsb App.isDidMount events then
      match App.lastAsked App.main events with
      | App.main => App.renderMainScreen
      | App.diag => App.renderDiagnosticScreen
      | App.demo => App.renderDemoScreen
      end
    else App.renderLoadingTF.
Proof.
  cbv zeta. unfold App.renderContent.
  destruct (after_events events App.initialState) as [-> ->].
  reflexivity.
Qed.

(* ================================================================= *)
(** ** Further sample runs *)

Lemma all_outputs_disposed_witness :
  exists res h,
    time sampleRender sampleNow sampleRep None true 3 1 sampleStart
    = (Return res, h) /\
    toDispose h = [] /\
    disposedIn (log h) = producedIn (log h) /\
    disposedIn (log h) = [tensorNo 0; tensorNo 1; tensorNo 2; tensorNo 3].
Proof.
  assert (Hrun : exists res h,
    time sampleRender sampleNow sampleRep None true 3 1 sampleStart
    = (Return res, h)).
  { eexists. eexists. vm_compute. reflexivity. }
  destruct Hrun as (res & h & Hrun).
  destruct (all_outputs_disposed sampleRender sampleNow sampleRep None 1
              3 sampleStart res h Hrun) as (H1 & H2 & _).
  exists res, h. repeat split; try assumption.
  replace h
    with (snd (time sampleRender sampleNow sampleRep None true 3 1
                 sampleStart))
    by now rewrite Hrun.
  vm_compute. reflexivity.
Defined.

(** The benchmark of [staleRep], in figures: the one tensor is produced
    twice and disposed once, by the warm-up, and it is still in
    [toDispose] when the call is rejected. *)
Lemma outputs_accounted_witness :
  let h := snd (timeA sampleRender sampleNow staleRep None sampleData
                  sampleDispose false 3 1 sampleStart) in
  producedIn (log h) = disposedIn (log h) ++ toDispose h /\
  disposedIn (log h) = [tensorNo 0] /\
  toDispose h = [tensorNo 0].
Proof.
  cbv zeta.
  split; [|vm_compute; split; reflexivity].
  exact (proj1 (outputs_accounted sampleRender sampleNow staleRep None
                  sampleData sampleDispose 1 false 3 sampleStart)).
Defined.

(** The benchmark of [freshRep] is fulfilled: the values awaited at the
    end of each trial are those of the tensor just made. *)
Lemma time_returns_witness :
  exists res h,
    timeA sampleRender sampleNow freshRep None sampleData sampleDispose
      false 3 1 sampleStart = (Fulfilled res, h) /\
    st_made (world h) = 4 /\
    Forall (fun i => i < st_made (world h)) (st_live (world h)).
Proof.
  destruct (time_returns sampleRender sampleNow freshRep None sampleData
              sampleDispose 1
              (fun s => Forall (fun i => i < st_made s) (st_live s)))
    with (d := false) (trials := 3) (w := sampleStart)
    as (res & h & Hrun & Hinv).
  - intros w Hinv. unfold sampleNow.
    destruct (scriptedClock (st_clock w)) as [x rest]. exact Hinv.
  - intros t w Hinv. cbn [sampleDispose st_made st_live].
    apply Forall_forall. intros i Hi. apply filter_In in Hi.
    exact (proj1 (Forall_forall _ _) Hinv i (proj1 Hi)).
  - intros r w Hinv. eexists. eexists. split; [reflexivity|].
    cbn [st_made st_live]. constructor; [lia|].
    apply Forall_forall. intros i Hi.
    assert (Hlt : i < st_made w)
      by exact (proj1 (Forall_forall _ _) Hinv i Hi).
    lia.
  - split; [lia|]. intros r w res w' Hinv Hrep.
    injection Hrep as <- <-.
    exists (tensorNo (st_made w)), [], (snd (sampleRep r w)).
    split; [reflexivity|]. split.
    + unfold sampleData. cbn. now rewrite Nat.eqb_refl.
    + cbn [snd sampleRep st_made st_live]. constructor; [lia|].
      apply Forall_forall. intros i Hi.
      assert (Hlt : i < st_made w)
      by exact (proj1 (Forall_forall _ _) Hinv i Hi).
    lia.
  - constructor.
  - exists res, h. split; [exact Hrun|]. split; [|exact Hinv].
    replace h
      with (snd (timeA sampleRender sampleNow freshRep None sampleData
                   sampleDispose false 3 1 sampleStart))
      by now rewrite Hrun.
    vm_compute. reflexivity.
Defined.




(** The same call, in figures. *)
Example uneven_run :
  timeA sampleRender sampleNow unevenRep None sampleData sampleDispose
    false 3 2 sampleStart
  = (Rejected exn_TypeError,
     {| world := {| st_made := 1; st_live := [0]; st_clock := sampleClock |};
        toDispose := [tensorNo 0];
        times := [];
        log := [BRep 0 (One (tensorNo 0)); BRep 1 (Many [])] |}).
Proof. vm_compute. reflexivity. Qed.

Lemma no_timed_trial_witness :
  exists res h,
    time sampleRender sampleNow sampleRep None false 0 1 sampleStart
    = (Return res, h) /\
    res = {| mean := S754_nan; min := pos_infinity |} /\
    readingsIn (log h) = [].
Proof.
  assert (Hrun : exists res h,
    time sampleRender sampleNow sampleRep None false 0 1 sampleStart
    = (Return res, h)).
  { eexists. eexists. vm_compute. reflexivity. }
  destruct Hrun as (res & h & Hrun).
  destruct (no_timed_trial sampleRender sampleNow sampleRep None 1 false
              sampleStart res h Hrun) as (H1 & _ & H2 & _).
  - reflexivity.
  - exists res, h. repeat split; assumption.
Defined.

Lemma held_outputs_count_witness :
  exists res h,
    time sampleRender sampleNow sampleRep None false 3 1 sampleStart
    = (Return res, h) /\
    List.length (toDispose h) = 3 /\
    List.length (disposedIn (log h)) = 1.
Proof.
  destruct sample_run_returns as (res & h & Hrun).
  destruct (held_outputs_count sampleRender sampleNow sampleRep None 1)
    with (trials := 3) (w := sampleStart) (res := res) (h := h)
    as (H1 & H2).
  - intros r w. eexists. reflexivity.
  - exact Hrun.
  - exists res, h. repeat split; assumption.
Defined.

Lemma at_most_once_per_output_witness :
  exists b,
    run sampleRender "add" []
      [ResolveData 1; ResolveTimer sampleTiming; ResolveData 0;
       RunTimerCallback 1]
      (spawn [nanTensor; sampleTensor]) = Some b /\
    (forall i, timesLogged i (trace b) <= 1) /\
    errorLines (trace b) <= 2.
Proof.
  eexists. split; [vm_compute; reflexivity|].
  refine ((fun H => conj (proj1 (proj2 H)) (proj2 (proj2 H)))
            (at_most_once_per_output sampleRender "add" []
               sampleTimer sampleThunk 0 3
               (Many [nanTensor; sampleTensor])
               (spawn [nanTensor; sampleTensor]) _
               [ResolveData 1; ResolveTimer sampleTiming; ResolveData 0;
                RunTimerCallback 1] _ _)).
  - vm_compute. reflexivity.
  - vm_compute. reflexivity.
Defined.

Lemma no_outputs_no_events_witness :
  exists b,
    run sampleRender "add" [] [ResolveTimer sampleTiming] (spawn [])
    = Some b /\
    trace b = [].
Proof.
  eexists. split; [vm_compute; reflexivity|].
  refine (proj1 (no_outputs_no_events sampleRender "add" [] sampleTimer
                   emptyThunk 0 3 (spawn []) _ [ResolveTimer sampleTiming]
                   _ _)).
  - vm_compute. reflexivity.
  - vm_compute. reflexivity.
Defined.

Lemma every_checked_output_logged_witness :
  exists b,
    run sampleRender "add" []
      (ResolveTimer sampleTiming
         :: inTurn sampleRender "add" 0 [nanTensor; sampleTensor])
      (spawn [nanTensor; sampleTensor]) = Some b /\
    In (EvLogged 1 (logKernelProfile sampleRender "add" sampleTensor
                      (values sampleTensor) (kernelMs sampleTiming) []
                      (Some "")))
       (trace b).
Proof.
  destruct (every_checked_output_logged sampleRender "add" [] sampleTiming
              sampleTimer sampleThunk 0 3 (Many [nanTensor; sampleTensor])
              (spawn [nanTensor; sampleTensor]))
    as (b & Hrun & _ & Hlogged).
  - vm_compute. reflexivity.
  - exists b. split; [exact Hrun|].
    apply (Hlogged 1 sampleTensor); reflexivity.
Defined.
